(** * Task Manager MCP server: a shallow embedding of [server.py]

    The module-level globals [tasks] (a Python dict, which iterates in
    insertion order) and [task_counter] become one explicit [Store] that
    every operation takes and returns.  A dict is an association list with
    unique keys, kept in insertion order.  [datetime.now().isoformat()] is
    the clock reading [now] handed to the operations that consult it. *)

From Stdlib Require Import String Ascii List Sorted Arith Bool Lia.
From Stdlib Require Import Decimal DecimalNat DecimalString.
From Stdlib Require Finite.
Import ListNotations.
Open Scope string_scope.

(** ** Python dicts with string keys *)

Module Dict.
Section Dict.
Context {V : Type}.

Definition t := list (string * V).

(** [d.get(k)] / [d[k]] *)
Fixpoint get (d : t) (k : string) : option V :=
  match d with
  | [] => None
  | (k', v) :: r => if k' =? k then Some v else get r k
  end.

(** [d[k] = v]: an existing key keeps its position, a new key goes last. *)
Fixpoint set (d : t) (k : string) (v : V) : t :=
  match d with
  | [] => [(k, v)]
  | (k', v') :: r =>
      if k' =? k then (k', v) :: r else (k', v') :: set r k v
  end.

(** In-place mutation of the object stored under [k], as in
    [d[k]["field"] = x]; the dict itself keeps its keys and their order. *)
Fixpoint mutate (d : t) (k : string) (f : V -> V) : t :=
  match d with
  | [] => []
  | (k', v) :: r =>
      if k' =? k then (k', f v) :: r else (k', v) :: mutate r k f
  end.

(** [d.pop(k)]: the dict without the entry of [k]. *)
Fixpoint remove (d : t) (k : string) : t :=
  match d with
  | [] => []
  | (k', v) :: r => if k' =? k then r else (k', v) :: remove r k
  end.

Definition keys (d : t) : list string := map fst d.
Definition values (d : t) : list V := map snd d.
Definition len (d : t) : nat := length d.

(** A Python dict never holds a key twice. *)
Definition wf (d : t) : Prop := NoDup (keys d).
End Dict.
Arguments t : clear implicits.
End Dict.

(** ** Tasks and the store *)

Definition timestamp := string.

Module Task.
Record t := mk {
  id : string;
  title : string;
  description : string;
  priority : string;
  status : string;
  created_at : timestamp;
  completed_at : option timestamp
}.

(** [task["status"] = st] *)
Definition set_status (st : string) (x : t) : t :=
  mk (id x) (title x) (description x) (priority x) st
     (created_at x) (completed_at x).

(** [task["completed_at"] = c] *)
Definition set_completed_at (c : option timestamp) (x : t) : t :=
  mk (id x) (title x) (description x) (priority x) (status x)
     (created_at x) c.
End Task.
Abbreviation Task := Task.t.

Record Store := mkStore {
  tasks : Dict.t Task;
  task_counter : nat
}.

(** [tasks = {}], [task_counter = 0] *)
Definition empty_store : Store := mkStore [] 0.

(** ** Results handed back to the host *)

Inductive ToolResult :=
| Success (message : string) (task : Task)
    (* {"success": True, "message": ..., "task": ...} *)
| Deleted (message : string) (deleted_task : Task)
    (* {"success": True, "message": ..., "deleted_task": ...} *)
| Failure (error : string).
    (* {"success": False, "error": ...} *)

Definition success (r : ToolResult) : bool :=
  match r with Failure _ => false | _ => true end.

Record ListResult := mkListResult {
  total : nat;
  listed : list Task;                (* key "tasks" *)
  filters : string * string          (* {"status": ..., "priority": ...} *)
}.

Record StatsResult := mkStatsResult {
  total_tasks : nat;
  by_status : Dict.t nat;
  by_priority : Dict.t nat
}.

Record AllTasks := mkAllTasks {
  all_tasks : list Task;             (* key "tasks" *)
  count : nat
}.

(** ** String helpers *)

(** [str(n)] for a non-negative Python int. *)
Definition str_of_int (n : nat) : string :=
  NilEmpty.string_of_uint (Nat.to_uint n).

(** [sep.join(l)] *)
Fixpoint join (sep : string) (l : list string) : string :=
  match l with
  | [] => ""
  | [x] => x
  | x :: r => x ++ sep ++ join sep r
  end.

Definition nl : string := String (ascii_of_nat 10) EmptyString.

(** [x or default] on an optional string: [None] and [""] are falsy. *)
Definition py_or (x : option string) (default : string) : string :=
  match x with
  | None => default
  | Some "" => default
  | Some s => s
  end.

(** [x in l] for a list of strings. *)
Definition str_in (x : string) (l : list string) : bool :=
  existsb (String.eqb x) l.

(** ** The operations *)

Definition valid_statuses : list string :=
  ["pending"; "in_progress"; "completed"].

Definition not_found (task_id : string) : string :=
  "Task " ++ task_id ++ " not found".

Definition create_task (now : timestamp) (title description priority : string)
    (s : Store) : Store * ToolResult :=
  let task_counter := task_counter s + 1 in
  let task_id := "task_" ++ str_of_int task_counter in
  let task := Task.mk task_id title description priority "pending" now None in
  (mkStore (Dict.set (tasks s) task_id task) task_counter,
   Success "Task created successfully" task).

(** One turn of the loop of [list_tasks]; the two [continue]s leave
    [filtered_tasks] as it is. *)
Definition list_tasks_iter (status priority : string)
    (filtered_tasks : list Task) (task : Task) : list Task :=
  if negb (status =? "all") && negb (Task.status task =? status)
  then filtered_tasks
  else if negb (priority =? "all") && negb (Task.priority task =? priority)
  then filtered_tasks
  else filtered_tasks ++ [task].

Definition list_tasks (status priority : string) (s : Store) : ListResult :=
  let filtered_tasks :=
    fold_left (list_tasks_iter status priority) (Dict.values (tasks s)) [] in
  mkListResult (length filtered_tasks) filtered_tasks (status, priority).

Definition update_task_status (now : timestamp) (task_id status : string)
    (s : Store) : Store * ToolResult :=
  match Dict.get (tasks s) task_id with
  | None => (s, Failure (not_found task_id))
  | Some _ =>
      if negb (str_in status valid_statuses) then
        (s, Failure ("Invalid status. Must be one of: "
                       ++ join ", " valid_statuses))
      else
        let tasks1 := Dict.mutate (tasks s) task_id (Task.set_status status) in
        let tasks2 :=
          if status =? "completed"
          then Dict.mutate tasks1 task_id (Task.set_completed_at (Some now))
          else tasks1 in
        match Dict.get tasks2 task_id with
        | Some task =>
            (mkStore tasks2 (task_counter s),
             Success ("Task " ++ task_id ++ " status updated to " ++ status)
                     task)
        | None => (s, Failure (not_found task_id)) (* KeyError: unreachable *)
        end
  end.

Definition delete_task (task_id : string) (s : Store) : Store * ToolResult :=
  match Dict.get (tasks s) task_id with
  | None => (s, Failure (not_found task_id))
  | Some deleted_task =>
      (mkStore (Dict.remove (tasks s) task_id) (task_counter s),
       Deleted ("Task " ++ task_id ++ " deleted successfully") deleted_task)
  end.

(** [d[k] = d.get(k, 0) + 1] *)
Definition bump (d : Dict.t nat) (k : string) : Dict.t nat :=
  Dict.set d k (match Dict.get d k with Some n => n | None => 0 end + 1).

Definition get_task_stats_iter (acc : Dict.t nat * Dict.t nat) (task : Task)
    : Dict.t nat * Dict.t nat :=
  (bump (fst acc) (Task.status task), bump (snd acc) (Task.priority task)).

Definition get_task_stats (s : Store) : StatsResult :=
  let total := Dict.len (tasks s) in
  let by_status := [("pending", 0); ("in_progress", 0); ("completed", 0)] in
  let by_priority := [("low", 0); ("medium", 0); ("high", 0)] in
  let acc :=
    fold_left get_task_stats_iter (Dict.values (tasks s))
              (by_status, by_priority) in
  mkStatsResult total (fst acc) (snd acc).

Definition get_all_tasks_resource (s : Store) : AllTasks :=
  mkAllTasks (Dict.values (tasks s)) (Dict.len (tasks s)).

Definition get_stats_resource (s : Store) : StatsResult := get_task_stats s.

Definition task_summary_prompt (task_id : string) (s : Store) : string :=
  match Dict.get (tasks s) task_id with
  | None => not_found task_id
  | Some task =>
      "Task Summary:" ++ nl ++
      "Title: " ++ Task.title task ++ nl ++
      "Description: " ++ Task.description task ++ nl ++
      "Priority: " ++ Task.priority task ++ nl ++
      "Status: " ++ Task.status task ++ nl ++
      "Created: " ++ Task.created_at task ++ nl ++
      "Completed: " ++ py_or (Task.completed_at task) "Not completed" ++ nl ++
      nl ++
      "Please analyze this task and provide recommendations for completion."
  end.

(** ** Sessions: the host calls one operation at a time *)

Inductive Call :=
| CreateTask (now : timestamp) (title description priority : string)
| ListTasks (status priority : string)
| UpdateTaskStatus (now : timestamp) (task_id status : string)
| DeleteTask (task_id : string)
| GetTaskStats
| AllTasksResource
| StatsResource
| TaskSummaryPrompt (task_id : string).

Inductive Reply :=
| RTool (r : ToolResult)
| RList (r : ListResult)
| RStats (r : StatsResult)
| RAll (r : AllTasks)
| RText (r : string).

Definition step (s : Store) (c : Call) : Store * Reply :=
  match c with
  | CreateTask now title description priority =>
      let (s', r) := create_task now title description priority s in
      (s', RTool r)
  | ListTasks status priority => (s, RList (list_tasks status priority s))
  | UpdateTaskStatus now task_id status =>
      let (s', r) := update_task_status now task_id status s in (s', RTool r)
  | DeleteTask task_id =>
      let (s', r) := delete_task task_id s in (s', RTool r)
  | GetTaskStats => (s, RStats (get_task_stats s))
  | AllTasksResource => (s, RAll (get_all_tasks_resource s))
  | StatsResource => (s, RStats (get_stats_resource s))
  | TaskSummaryPrompt task_id => (s, RText (task_summary_prompt task_id s))
  end.

(** The store after a session. *)
Fixpoint exec (s : Store) (cs : list Call) : Store :=
  match cs with
  | [] => s
  | c :: cs' => exec (fst (step s c)) cs'
  end.

(** The calls of a session, each with what it returned. *)
Fixpoint transcript (s : Store) (cs : list Call) : list (Call * Reply) :=
  match cs with
  | [] => []
  | c :: cs' => (c, snd (step s c)) :: transcript (fst (step s c)) cs'
  end.

Definition reachable (s : Store) : Prop := exists cs, s = exec empty_store cs.

(** ** Vocabulary of the specification *)

(** The identifier of the [n]-th task ever created. *)
Definition task_id_of (n : nat) : string := "task_" ++ str_of_int n.

(** The filter of [list_tasks] as the specification words it: a task is
    kept when it passes the status check and the priority check. *)
Definition passes (status priority : string) (t : Task) : bool :=
  ((status =? "all") || (Task.status t =? status))
  && ((priority =? "all") || (Task.priority t =? priority)).

Definition list_tasks_spec (status priority : string) (s : Store) : list Task :=
  filter (passes status priority) (Dict.values (tasks s)).

(** Number of tasks whose field [f] reads [k]. *)
Definition occurrences (f : Task -> string) (k : string) (l : list Task) : nat :=
  length (filter (fun t => f t =? k) l).

Definition sum_values (d : Dict.t nat) : nat := list_sum (Dict.values d).

(** The loop of [get_task_stats] restricted to one of its two breakdowns,
    the one over the field [f]. *)
Definition tally (f : Task -> string) (l : list Task) (d : Dict.t nat)
    : Dict.t nat :=
  fold_left (fun acc task => bump acc (f task)) l d.

(** Identifiers handed out by the [create_task] calls of a transcript, in
    the order of the calls. *)
Definition created_ids (log : list (Call * Reply)) : list string :=
  flat_map (fun cr =>
              match cr with
              | (CreateTask _ _ _ _, RTool (Success _ t)) => [Task.id t]
              | _ => []
              end) log.

Definition is_create (c : Call) : bool :=
  match c with CreateTask _ _ _ _ => true | _ => false end.

Definition creations (cs : list Call) : nat := length (filter is_create cs).

(** [c], issued in store [s], is a successful [update_task_status] that
    sets the status of [k] to completed. *)
Definition completes (s : Store) (c : Call) (k : string) : bool :=
  match c with
  | UpdateTaskStatus now task_id st =>
      (task_id =? k) && (st =? "completed")
      && success (snd (update_task_status now task_id st s))
  | _ => false
  end.

(** Some call of the session [cs], started in [s], set the status of [k]
    to completed. *)
Fixpoint ever_completed (s : Store) (cs : list Call) (k : string) : bool :=
  match cs with
  | [] => false
  | c :: cs' => completes s c k || ever_completed (fst (step s c)) cs' k
  end.

(** The record stored under [k] in [s] has its status field at [st]. *)
Definition has_status (s : Store) (k st : string) : bool :=
  match Dict.get (tasks s) k with
  | Some t => Task.status t =? st
  | None => false
  end.

(** In some store of the session [cs], started in [s] (the store before
    the first call, after each call, up to the last), the record stored
    under [k] had its status field at completed. *)
Fixpoint was_completed (s : Store) (cs : list Call) (k : string) : bool :=
  has_status s k "completed"
  || match cs with
     | [] => false
     | c :: cs' => was_completed (fst (step s c)) cs' k
     end.

(** Keys are identifiers of tasks created so far, in creation order, and
    each record carries its key. *)
Fixpoint in_creation_order (lo hi : nat) (d : Dict.t Task) : Prop :=
  match d with
  | [] => True
  | (k, t) :: r =>
      (exists n, lo < n <= hi /\ k = task_id_of n /\ Task.id t = k
                 /\ in_creation_order n hi r)
  end.

Definition store_ok (s : Store) : Prop :=
  in_creation_order 0 (task_counter s) (tasks s).

(** [k] was handed out earlier and is no longer stored. *)
Definition retired (s : Store) (k : string) : Prop :=
  Dict.get (tasks s) k = None
  /\ exists n, n <= task_counter s /\ k = task_id_of n.

(** The store agrees with a record [h] of the identifiers whose status was
    ever set to completed. *)
Definition history_ok (s : Store) (h : string -> bool) : Prop :=
  store_ok s
  /\ (forall k t, Dict.get (tasks s) k = Some t ->
        str_in (Task.status t) valid_statuses = true
        /\ (Task.completed_at t <> None <-> h k = true))
  /\ (forall k, h k = true ->
        exists n, n <= task_counter s /\ k = task_id_of n).

(** ** A small session used to exercise the statements *)

Definition t0 : timestamp := "2024-05-01T09:00:00.000000".
Definition t1 : timestamp := "2024-05-01T09:05:00.000000".
Definition t2 : timestamp := "2024-05-02T17:30:00.000000".
Definition t3 : timestamp := "2024-05-03T08:15:00.000000".

Definition demo_setup : list Call :=
  [ CreateTask t0 "Write spec" "draft v1" "medium";
    CreateTask t1 "Ship release" "tag and publish" "urgent" ].

(** Two pending tasks, [task_1] and [task_2]. *)
Definition demo_store : Store := exec empty_store demo_setup.

(** [task_1] completed at [t2], [task_2] still pending. *)
Definition demo_done : Store :=
  exec demo_store [UpdateTaskStatus t2 "task_1" "completed"].

(** A longer session: [task_1] is completed and reopened, [task_2] is
    deleted, and a third task is created afterwards. *)
Definition demo_session : list Call :=
  (demo_setup ++
   [ UpdateTaskStatus t2 "task_1" "completed";
     DeleteTask "task_2";
     CreateTask t3 "Review" "second pass" "high";
     UpdateTaskStatus t3 "task_1" "pending" ])%list.

(** ** Vocabulary for the life of a task *)

(** [c], issued in store [s], is a [delete_task] that removes a task. *)
Definition deletes (s : Store) (c : Call) : bool :=
  match c with
  | DeleteTask task_id => success (snd (delete_task task_id s))
  | _ => false
  end.

(** Number of calls of the session [cs], started in [s], that removed a
    task. *)
Fixpoint deletions (s : Store) (cs : list Call) : nat :=
  match cs with
  | [] => 0
  | c :: cs' =>
      (if deletes s c then 1 else 0) + deletions (fst (step s c)) cs'
  end.

(** The fields that no operation writes after creation. *)
Definition same_origin (t t' : Task) : Prop :=
  Task.id t' = Task.id t
  /\ Task.title t' = Task.title t
  /\ Task.description t' = Task.description t
  /\ Task.priority t' = Task.priority t
  /\ Task.created_at t' = Task.created_at t.

(** A completed task carries a completion time. *)
Definition stamped (t : Task) : Prop :=
  Task.status t = "completed" -> Task.completed_at t <> None.

(** Last character of a text, if any. *)
Fixpoint last_char (s : string) : option ascii :=
  match s with
  | EmptyString => None
  | String c EmptyString => Some c
  | String _ r => last_char r
  end.

(** * Facts about dicts *)

Section DictFacts.
Context {V : Type}.
Implicit Types (d : Dict.t V) (k : string) (v : V).

Lemma get_In d k v : Dict.get d k = Some v -> In (k, v) d.
Proof.
  induction d as [|[k' v'] r IH]; simpl; [discriminate|].
  destruct (String.eqb_spec k' k) as [->|_].
  - intros [= ->]. now left.
  - intros H. right. auto.
Qed.

Lemma get_None d k : Dict.get d k = None <-> ~ In k (Dict.keys d).
Proof.
  induction d as [|[k' v'] r IH]; simpl.
  - split; auto.
  - destruct (String.eqb_spec k' k) as [->|Hne].
    + split; [discriminate|]. intros H. exfalso. apply H. now left.
    + rewrite IH. split.
      * intros H [E|I]; [now apply Hne | now apply H].
      * intros H I. apply H. now right.
Qed.

Lemma In_get d k v : Dict.wf d -> In (k, v) d -> Dict.get d k = Some v.
Proof.
  unfold Dict.wf. induction d as [|[k' v'] r IH]; simpl; [easy|].
  intros Hnd [E|I].
  - inversion E; subst. now rewrite String.eqb_refl.
  - inversion Hnd as [|? ? Hnot Hr]; subst.
    destruct (String.eqb_spec k' k) as [->|_].
    + exfalso. apply Hnot. change k with (fst (k, v)). now apply in_map.
    + auto.
Qed.

Lemma get_set_same d k v : Dict.get (Dict.set d k v) k = Some v.
Proof.
  induction d as [|[k' v'] r IH]; simpl.
  - now rewrite String.eqb_refl.
  - destruct (String.eqb_spec k' k) as [->|Hne]; simpl.
    + now rewrite String.eqb_refl.
    + destruct (String.eqb_spec k' k); [contradiction|exact IH].
Qed.

Lemma get_set_other d k k0 v :
  k0 <> k -> Dict.get (Dict.set d k v) k0 = Dict.get d k0.
Proof.
  intros Hne. induction d as [|[k' v'] r IH]; simpl.
  - destruct (String.eqb_spec k k0); [congruence|reflexivity].
  - destruct (String.eqb_spec k' k) as [->|Hk]; simpl.
    + destruct (String.eqb_spec k k0); [congruence|reflexivity].
    + destruct (String.eqb_spec k' k0); [reflexivity|exact IH].
Qed.

Lemma set_fresh d k v :
  Dict.get d k = None -> Dict.set d k v = (d ++ [(k, v)])%list.
Proof.
  induction d as [|[k' v'] r IH]; simpl; [reflexivity|].
  destruct (String.eqb_spec k' k); [discriminate|].
  intros H. now rewrite IH.
Qed.

Lemma set_present d k v v0 :
  Dict.get d k = Some v0 -> Dict.keys (Dict.set d k v) = Dict.keys d.
Proof.
  induction d as [|[k' v'] r IH]; simpl; [discriminate|].
  destruct (String.eqb_spec k' k); simpl; [reflexivity|].
  intros H. now rewrite IH.
Qed.

Lemma get_mutate_same d k f :
  Dict.get (Dict.mutate d k f) k = option_map f (Dict.get d k).
Proof.
  induction d as [|[k' v'] r IH]; simpl; [reflexivity|].
  destruct (String.eqb_spec k' k) as [->|Hne]; simpl.
  - now rewrite String.eqb_refl.
  - destruct (String.eqb_spec k' k); [contradiction|exact IH].
Qed.

Lemma get_mutate_other d k k0 f :
  k0 <> k -> Dict.get (Dict.mutate d k f) k0 = Dict.get d k0.
Proof.
  intros Hne. induction d as [|[k' v'] r IH]; simpl; [reflexivity|].
  destruct (String.eqb_spec k' k) as [->|Hk]; simpl.
  - destruct (String.eqb_spec k k0); [congruence|reflexivity].
  - destruct (String.eqb_spec k' k0); [reflexivity|exact IH].
Qed.

Lemma keys_mutate d k f : Dict.keys (Dict.mutate d k f) = Dict.keys d.
Proof.
  induction d as [|[k' v'] r IH]; simpl; [reflexivity|].
  destruct (k' =? k); simpl; [reflexivity|now rewrite IH].
Qed.


Lemma get_remove_other d k k0 :
  k0 <> k -> Dict.get (Dict.remove d k) k0 = Dict.get d k0.
Proof.
  intros Hne. induction d as [|[k' v'] r IH]; simpl; [reflexivity|].
  destruct (String.eqb_spec k' k) as [->|Hk]; simpl.
  - destruct (String.eqb_spec k k0); [congruence|reflexivity].
  - destruct (String.eqb_spec k' k0); [reflexivity|exact IH].
Qed.


Lemma get_remove_same d k :
  Dict.wf d -> Dict.get (Dict.remove d k) k = None.
Proof.
  unfold Dict.wf. induction d as [|[k' v'] r IH]; simpl; [reflexivity|].
  intros Hnd. inversion Hnd as [|? ? Hnot Hr]; subst.
  destruct (String.eqb_spec k' k) as [->|Hk]; simpl.
  - now apply get_None.
  - destruct (String.eqb_spec k' k); [contradiction|auto].
Qed.

Lemma len_remove d k v :
  Dict.get d k = Some v -> S (Dict.len (Dict.remove d k)) = Dict.len d.
Proof.
  unfold Dict.len. induction d as [|[k' v'] r IH]; simpl; [discriminate|].
  destruct (k' =? k); simpl; [reflexivity|]. intros H. now rewrite IH.
Qed.

(** Popping a present key splits the dict around its entry. *)
Lemma remove_split d k v :
  Dict.get d k = Some v ->
  exists d1 d2, d = (d1 ++ (k, v) :: d2)%list
                /\ Dict.remove d k = (d1 ++ d2)%list
                /\ ~ In k (Dict.keys d1).
Proof.
  induction d as [|[k' v'] r IH]; simpl; [discriminate|].
  destruct (String.eqb_spec k' k) as [->|Hk].
  - intros [= ->]. exists [], r. simpl. auto.
  - intros H. destruct (IH H) as (d1 & d2 & -> & E & Hn).
    exists ((k', v') :: d1), d2. simpl. rewrite E.
    repeat split; auto. intros [?|?]; auto.
Qed.
End DictFacts.

(** * The operations one by one *)

Lemma valid_statuses_spec st :
  str_in st valid_statuses = true
  <-> st = "pending" \/ st = "in_progress" \/ st = "completed".
Proof.
  unfold str_in, valid_statuses; simpl.
  rewrite !orb_true_iff, !String.eqb_eq. intuition congruence.
Qed.

Lemma invalid_status_spec st :
  str_in st valid_statuses = false
  <-> st <> "pending" /\ st <> "in_progress" /\ st <> "completed".
Proof.
  rewrite <- not_true_iff_false, valid_statuses_spec. intuition.
Qed.

Lemma invalid_status_message :
  "Invalid status. Must be one of: " ++ join ", " valid_statuses
  = "Invalid status. Must be one of: pending, in_progress, completed".
Proof. reflexivity. Qed.

(** [update_task_status] succeeds exactly on a stored task and a status of
    the enumeration. *)
Lemma update_task_status_success now task_id st s :
  success (snd (update_task_status now task_id st s)) = true
  <-> (exists t, Dict.get (tasks s) task_id = Some t)
      /\ str_in st valid_statuses = true.
Proof.
  unfold update_task_status.
  destruct (Dict.get (tasks s) task_id) as [t|] eqn:Hget.
  - destruct (str_in st valid_statuses) eqn:Hv; cbn [negb].
    + destruct (st =? "completed");
        rewrite ?get_mutate_same, Hget; cbn; split; eauto.
    + cbn. split; [discriminate|]. intros [_ H]. discriminate.
  - cbn. split; [discriminate|]. intros [[t H] _]. discriminate.
Qed.

(** The successful path of [update_task_status], computed; shared by the
    arguments about single calls and about sessions. *)
Lemma update_task_status_ok now task_id st s t :
  Dict.get (tasks s) task_id = Some t ->
  str_in st valid_statuses = true ->
  exists d',
    update_task_status now task_id st s
    = (mkStore d' (task_counter s),
       Success ("Task " ++ task_id ++ " status updated to " ++ st)
         (Task.mk (Task.id t) (Task.title t) (Task.description t)
                  (Task.priority t) st (Task.created_at t)
                  (if st =? "completed" then Some now
                   else Task.completed_at t)))
    /\ Dict.get d' task_id
       = Some (Task.mk (Task.id t) (Task.title t) (Task.description t)
                       (Task.priority t) st (Task.created_at t)
                       (if st =? "completed" then Some now
                        else Task.completed_at t))
    /\ (forall k, k <> task_id -> Dict.get d' k = Dict.get (tasks s) k)
    /\ Dict.keys d' = Dict.keys (tasks s).
Proof.
  intros Hget Hv. unfold update_task_status. rewrite Hget, Hv. cbn [negb].
  destruct (st =? "completed").
  - rewrite !get_mutate_same, Hget. cbn [option_map].
    eexists. split; [reflexivity|].
    rewrite !get_mutate_same, Hget, !keys_mutate. cbn [option_map].
    repeat split. intros k Hk. now rewrite !get_mutate_other.
  - rewrite get_mutate_same, Hget. cbn [option_map].
    eexists. split; [reflexivity|].
    rewrite get_mutate_same, Hget, keys_mutate. cbn [option_map].
    repeat split. intros k Hk. now rewrite get_mutate_other.
Qed.

Lemma update_task_status_failed now task_id st s :
  Dict.get (tasks s) task_id = None \/ str_in st valid_statuses = false ->
  exists e, update_task_status now task_id st s = (s, Failure e).
Proof.
  unfold update_task_status.
  destruct (Dict.get (tasks s) task_id) as [t|]; [|eauto].
  intros [H|H]; [discriminate|]. rewrite H. cbn [negb]. eauto.
Qed.

(** C1: after a successful [update_task_status], the stored task has the
    new status; its [completed_at] is the current instant when the new
    status is completed and is exactly its former value (stale or absent)
    when the new status is pending or in_progress; every other field, every
    other task and the counter are as before. *)
Theorem update_task_status_effect now task_id st s s' msg t' :
  update_task_status now task_id st s = (s', Success msg t') ->
  exists t,
    Dict.get (tasks s) task_id = Some t
    /\ Dict.get (tasks s') task_id = Some t'
    /\ Task.status t' = st
    /\ ((st = "completed" /\ Task.completed_at t' = Some now)
        \/ ((st = "pending" \/ st = "in_progress")
            /\ Task.completed_at t' = Task.completed_at t))
    /\ Task.id t' = Task.id t
    /\ Task.title t' = Task.title t
    /\ Task.description t' = Task.description t
    /\ Task.priority t' = Task.priority t
    /\ Task.created_at t' = Task.created_at t
    /\ (forall k, k <> task_id -> Dict.get (tasks s') k = Dict.get (tasks s) k)
    /\ Dict.keys (tasks s') = Dict.keys (tasks s)
    /\ task_counter s' = task_counter s.
Proof.
  intros E.
  destruct (Dict.get (tasks s) task_id) as [t|] eqn:Hget.
  2: { destruct (update_task_status_failed now task_id st s (or_introl Hget))
         as [e E']. rewrite E' in E. discriminate. }
  destruct (str_in st valid_statuses) eqn:Hv.
  2: { destruct (update_task_status_failed now task_id st s (or_intror Hv))
         as [e E']. rewrite E' in E. discriminate. }
  destruct (update_task_status_ok now task_id st s t Hget Hv)
    as (d' & E' & Hget' & Hoth & Hkeys).
  rewrite E' in E. injection E as <- <- <-.
  exists t. cbn [tasks task_counter Task.id Task.title Task.description
                 Task.priority Task.status Task.created_at Task.completed_at].
  repeat split; auto.
  apply valid_statuses_spec in Hv.
  destruct (String.eqb_spec st "completed") as [Hc|Hc]; [now left|right].
  split; [tauto|reflexivity].
Qed.

Lemma update_task_status_effect_witness :
  update_task_status t3 "task_1" "pending" demo_done
  = (exec demo_done [UpdateTaskStatus t3 "task_1" "pending"],
     Success "Task task_1 status updated to pending"
       (Task.mk "task_1" "Write spec" "draft v1" "medium" "pending" t0
                (Some t2)))
  /\ exists t,
      Dict.get (tasks demo_done) "task_1" = Some t
      /\ Task.completed_at t = Some t2.
Proof.
  split; [reflexivity|].
  destruct (update_task_status_effect t3 "task_1" "pending" demo_done _ _ _
              eq_refl) as (t & Ht & _ & _ & Hc & _).
  exists t. split; [exact Ht|].
  destruct Hc as [[Hc _]|[_ Hc]]; [discriminate Hc|].
  symmetry. exact Hc.
Defined.

(** C4: on a stored task, a status outside the enumeration is answered by
    the InvalidStatus failure, as an ordinary result, and the store that
    comes back is the store that went in, so the task and every other
    entry are untouched. *)
Theorem update_task_status_invalid now task_id st s t :
  Dict.get (tasks s) task_id = Some t ->
  st <> "pending" -> st <> "in_progress" -> st <> "completed" ->
  update_task_status now task_id st s
  = (s, Failure
          "Invalid status. Must be one of: pending, in_progress, completed")
  /\ success (snd (update_task_status now task_id st s)) = false
  /\ Dict.get (tasks (fst (update_task_status now task_id st s))) task_id
     = Some t.
Proof.
  intros Hget H1 H2 H3.
  assert (Hv : str_in st valid_statuses = false)
    by (apply invalid_status_spec; auto).
  assert (E : update_task_status now task_id st s
              = (s, Failure
                      "Invalid status. Must be one of: pending, in_progress, completed")).
  { unfold update_task_status. rewrite Hget, Hv. cbn [negb].
    now rewrite invalid_status_message. }
  rewrite E. cbn. auto.
Qed.

Lemma update_task_status_invalid_witness :
  Dict.get (tasks demo_done) "task_1"
  = Some (Task.mk "task_1" "Write spec" "draft v1" "medium" "completed" t0
                  (Some t2))
  /\ update_task_status t3 "task_1" "done" demo_done
     = (demo_done,
        Failure
          "Invalid status. Must be one of: pending, in_progress, completed").
Proof.
  split; [reflexivity|].
  apply (update_task_status_invalid t3 "task_1" "done" demo_done _ eq_refl);
    discriminate.
Defined.

(** C10: when the task is not stored and the status is outside the
    enumeration as well, the existence check decides: the answer is the
    NotFound failure, which is not the InvalidStatus one, and the store is
    returned as it was. *)
Theorem update_task_status_not_found_first now task_id st s :
  Dict.get (tasks s) task_id = None ->
  st <> "pending" -> st <> "in_progress" -> st <> "completed" ->
  update_task_status now task_id st s
  = (s, Failure ("Task " ++ task_id ++ " not found"))
  /\ "Task " ++ task_id ++ " not found"
     <> "Invalid status. Must be one of: pending, in_progress, completed".
Proof.
  intros Hget _ _ _. split.
  - unfold update_task_status. now rewrite Hget.
  - cbn. discriminate.
Qed.

Lemma update_task_status_not_found_first_witness :
  Dict.get (tasks demo_done) "task_99" = None
  /\ update_task_status t3 "task_99" "done" demo_done
     = (demo_done, Failure "Task task_99 not found").
Proof.
  split; [reflexivity|].
  apply (update_task_status_not_found_first t3 "task_99" "done" demo_done
           eq_refl); discriminate.
Defined.

(** C9: [task_summary_prompt] is a text in every case and leaves the store
    alone.  For an unknown id the text is the not-found sentence; for a
    stored task it is the fixed block over title, description, priority,
    status and creation time, whose completion line reads "Not completed"
    when [completed_at] is absent and the completion time otherwise. *)
Theorem task_summary_prompt_text task_id s :
  step s (TaskSummaryPrompt task_id)
  = (s, RText (task_summary_prompt task_id s))
  /\ match Dict.get (tasks s) task_id with
     | None =>
         task_summary_prompt task_id s = "Task " ++ task_id ++ " not found"
     | Some t =>
         exists completed,
           task_summary_prompt task_id s
           = "Task Summary:" ++ nl ++
             "Title: " ++ Task.title t ++ nl ++
             "Description: " ++ Task.description t ++ nl ++
             "Priority: " ++ Task.priority t ++ nl ++
             "Status: " ++ Task.status t ++ nl ++
             "Created: " ++ Task.created_at t ++ nl ++
             "Completed: " ++ completed ++ nl ++
             nl ++
             "Please analyze this task and provide recommendations for completion."
           /\ (Task.completed_at t = None -> completed = "Not completed")
           /\ (forall c, Task.completed_at t = Some c -> c <> "" ->
                         completed = c)
     end.
Proof.
  split; [reflexivity|].
  unfold task_summary_prompt.
  destruct (Dict.get (tasks s) task_id) as [t|]; [|reflexivity].
  exists (py_or (Task.completed_at t) "Not completed").
  split; [reflexivity|]. split.
  - now intros ->.
  - intros c -> Hc. destruct c; [contradiction|reflexivity].
Qed.

Example task_summary_prompt_pending :
  task_summary_prompt "task_2" demo_done
  = "Task Summary:" ++ nl ++
    "Title: Ship release" ++ nl ++
    "Description: tag and publish" ++ nl ++
    "Priority: urgent" ++ nl ++
    "Status: pending" ++ nl ++
    "Created: 2024-05-01T09:05:00.000000" ++ nl ++
    "Completed: Not completed" ++ nl ++
    nl ++
    "Please analyze this task and provide recommendations for completion.".
Proof. reflexivity. Qed.

Example task_summary_prompt_completed :
  task_summary_prompt "task_1" demo_done
  = "Task Summary:" ++ nl ++
    "Title: Write spec" ++ nl ++
    "Description: draft v1" ++ nl ++
    "Priority: medium" ++ nl ++
    "Status: completed" ++ nl ++
    "Created: 2024-05-01T09:00:00.000000" ++ nl ++
    "Completed: 2024-05-02T17:30:00.000000" ++ nl ++
    nl ++
    "Please analyze this task and provide recommendations for completion.".
Proof. reflexivity. Qed.

(** * Listing *)

Lemma list_tasks_iter_spec status priority acc t :
  list_tasks_iter status priority acc t
  = (acc ++ if passes status priority t then [t] else [])%list.
Proof.
  unfold list_tasks_iter, passes.
  destruct (status =? "all"), (Task.status t =? status),
    (priority =? "all"), (Task.priority t =? priority);
    cbn; now rewrite ?app_nil_r.
Qed.

Lemma list_tasks_loop status priority l acc :
  fold_left (list_tasks_iter status priority) l acc
  = (acc ++ filter (passes status priority) l)%list.
Proof.
  revert acc. induction l as [|t l IH]; intros acc; simpl.
  - now rewrite app_nil_r.
  - rewrite IH, list_tasks_iter_spec.
    destruct (passes status priority t); simpl.
    + now rewrite <- app_assoc.
    + now rewrite app_nil_r.
Qed.

Lemma listed_spec status priority s :
  listed (list_tasks status priority s) = list_tasks_spec status priority s.
Proof.
  unfold list_tasks, list_tasks_spec; simpl. now rewrite list_tasks_loop.
Qed.

(** * Statistics *)


Lemma sum_values_set (d : Dict.t nat) k v :
  sum_values (Dict.set d k v)
  + match Dict.get d k with Some n => n | None => 0 end
  = sum_values d + v.
Proof.
  unfold sum_values. induction d as [|[k' n] r IH]; simpl.
  - lia.
  - destruct (k' =? k); simpl; lia.
Qed.

Lemma sum_values_bump d k : sum_values (bump d k) = sum_values d + 1.
Proof.
  unfold bump.
  pose proof (sum_values_set d k
                (match Dict.get d k with Some n => n | None => 0 end + 1)).
  lia.
Qed.

Lemma get_bump_same d k :
  Dict.get (bump d k) k
  = Some (match Dict.get d k with Some n => n | None => 0 end + 1).
Proof. apply get_set_same. Qed.

Lemma get_bump_other d k k0 :
  k0 <> k -> Dict.get (bump d k) k0 = Dict.get d k0.
Proof. apply get_set_other. Qed.

Lemma wf_bump d k : Dict.wf d -> Dict.wf (bump d k).
Proof.
  unfold bump, Dict.wf. intros Hwf.
  destruct (Dict.get d k) as [n|] eqn:Hget.
  - now rewrite (set_present _ _ _ _ Hget).
  - rewrite (set_fresh _ _ _ Hget). unfold Dict.keys.
    rewrite map_app; simpl. apply NoDup_app; auto.
    + repeat constructor. simpl. tauto.
    + intros x Hx [<-|[]]. now apply get_None in Hget.
Qed.

Section Tally.
Variable f : Task -> string.

Lemma occurrences_cons k t l :
  occurrences f k (t :: l)
  = (if f t =? k then 1 else 0) + occurrences f k l.
Proof. unfold occurrences; simpl. now destruct (f t =? k). Qed.

Lemma sum_values_tally l d : sum_values (tally f l d) = sum_values d + length l.
Proof.
  unfold tally. revert d. induction l as [|t l IH]; intros d; simpl.
  - lia.
  - rewrite IH, sum_values_bump. lia.
Qed.

Lemma wf_tally l d : Dict.wf d -> Dict.wf (tally f l d).
Proof.
  unfold tally. revert d. induction l as [|t l IH]; intros d Hwf; simpl.
  - exact Hwf.
  - apply IH. now apply wf_bump.
Qed.

Lemma get_tally l d k :
  Dict.get (tally f l d) k
  = match Dict.get d k with
    | Some n => Some (n + occurrences f k l)
    | None =>
        if Nat.eqb (occurrences f k l) 0 then None
        else Some (occurrences f k l)
    end.
Proof.
  unfold tally. revert d. induction l as [|t l IH]; intros d.
  - simpl. destruct (Dict.get d k); [f_equal; cbn; lia | reflexivity].
  - cbn [fold_left]. rewrite IH, occurrences_cons.
    destruct (String.eqb_spec (f t) k) as [->|Hne].
    + rewrite get_bump_same.
      destruct (Dict.get d k); cbn [Nat.add Nat.eqb];
        f_equal; lia.
    + rewrite get_bump_other by congruence. reflexivity.
Qed.
End Tally.

Lemma get_task_stats_loop l a b :
  fold_left get_task_stats_iter l (a, b)
  = (tally Task.status l a, tally Task.priority l b).
Proof.
  unfold tally. revert a b. induction l as [|t l IH]; intros a b; simpl.
  - reflexivity.
  - apply IH.
Qed.

(** * Identifiers *)

Lemma str_of_int_inj n m : str_of_int n = str_of_int m -> n = m.
Proof.
  unfold str_of_int. intros H.
  apply (f_equal NilEmpty.uint_of_string) in H.
  rewrite !NilEmpty.usu in H. injection H as H.
  apply (f_equal Nat.of_uint) in H. now rewrite !Unsigned.of_to in H.
Qed.

Lemma task_id_of_inj n m : task_id_of n = task_id_of m -> n = m.
Proof.
  unfold task_id_of. cbn. intros H. injection H as H.
  now apply str_of_int_inj.
Qed.

(** * Stores of a running server *)

Lemma in_creation_order_weaken lo lo' hi hi' d :
  lo' <= lo -> hi <= hi' ->
  in_creation_order lo hi d -> in_creation_order lo' hi' d.
Proof.
  revert lo lo'. induction d as [|[k t] r IH]; intros lo lo' Hlo Hhi; simpl.
  - auto.
  - intros (n & Hn & Hk & Hid & Hr). exists n. repeat split; try lia; auto.
    now apply (IH n n).
Qed.

Lemma in_creation_order_In lo hi d k t :
  in_creation_order lo hi d -> In (k, t) d ->
  exists n, lo < n <= hi /\ k = task_id_of n /\ Task.id t = k.
Proof.
  revert lo. induction d as [|[k' t'] r IH]; intros lo; simpl; [easy|].
  intros (n & Hn & Hk & Hid & Hr) [E|I].
  - inversion E; subst. eauto.
  - destruct (IH n Hr I) as (m & Hm & ? & ?). exists m. split; [lia|auto].
Qed.

Lemma in_creation_order_wf lo hi d : in_creation_order lo hi d -> Dict.wf d.
Proof.
  unfold Dict.wf. revert lo. induction d as [|[k t] r IH]; intros lo; simpl.
  - constructor.
  - intros (n & Hn & Hk & Hid & Hr). constructor; [|eauto].
    intros Hin. apply in_map_iff in Hin as [[k' t'] [E I]]. simpl in E.
    destruct (in_creation_order_In _ _ _ _ _ Hr I) as (m & Hm & Hk' & _).
    subst. apply task_id_of_inj in Hk'. lia.
Qed.

Lemma in_creation_order_fresh lo hi d m :
  in_creation_order lo hi d -> hi < m -> Dict.get d (task_id_of m) = None.
Proof.
  intros Hd Hm. destruct (Dict.get d (task_id_of m)) as [t|] eqn:Hget; auto.
  apply get_In in Hget.
  destruct (in_creation_order_In _ _ _ _ _ Hd Hget) as (n & Hn & Hk & _).
  apply task_id_of_inj in Hk. lia.
Qed.

Lemma in_creation_order_snoc lo hi d t :
  lo <= hi -> Task.id t = task_id_of (hi + 1) ->
  in_creation_order lo hi d ->
  in_creation_order lo (hi + 1) (d ++ [(task_id_of (hi + 1), t)])%list.
Proof.
  intros Hlo Hid. revert lo Hlo.
  induction d as [|[k' t'] r IH]; intros lo Hlo; simpl.
  - intros _. exists (hi + 1). repeat split; auto; lia.
  - intros (n & Hn & Hk & Hid' & Hr). exists n.
    repeat split; auto; try lia. apply IH; [lia|auto].
Qed.

Lemma in_creation_order_mutate lo hi d k f :
  (forall t, Task.id (f t) = Task.id t) ->
  in_creation_order lo hi d -> in_creation_order lo hi (Dict.mutate d k f).
Proof.
  intros Hf. revert lo. induction d as [|[k' t'] r IH]; intros lo; simpl.
  - auto.
  - intros (n & Hn & Hk & Hid & Hr).
    destruct (k' =? k); simpl; exists n; rewrite ?Hf; auto.
Qed.

Lemma in_creation_order_remove lo hi d k :
  in_creation_order lo hi d -> in_creation_order lo hi (Dict.remove d k).
Proof.
  revert lo. induction d as [|[k' t'] r IH]; intros lo; simpl.
  - auto.
  - intros (n & Hn & Hk & Hid & Hr). destruct (k' =? k); simpl.
    + apply (in_creation_order_weaken n lo hi hi); auto; lia.
    + exists n. auto.
Qed.

Lemma store_ok_empty : store_ok empty_store.
Proof. exact I. Qed.

Lemma store_ok_create now ti de pr s :
  store_ok s -> store_ok (fst (create_task now ti de pr s)).
Proof.
  unfold store_ok, create_task; cbn. intros Hs.
  rewrite set_fresh
    by (apply (in_creation_order_fresh 0 (task_counter s)); auto; lia).
  apply in_creation_order_snoc; auto. lia.
Qed.

Lemma store_ok_update now task_id st s :
  store_ok s -> store_ok (fst (update_task_status now task_id st s)).
Proof.
  unfold store_ok, update_task_status. intros Hs.
  destruct (Dict.get (tasks s) task_id) as [t|] eqn:Hget; [|exact Hs].
  destruct (str_in st valid_statuses); cbn [negb]; [|exact Hs].
  destruct (st =? "completed"); rewrite ?get_mutate_same, Hget; cbn;
    repeat apply in_creation_order_mutate; auto.
Qed.

Lemma store_ok_delete task_id s :
  store_ok s -> store_ok (fst (delete_task task_id s)).
Proof.
  unfold store_ok, delete_task. intros Hs.
  destruct (Dict.get (tasks s) task_id); cbn; auto.
  now apply in_creation_order_remove.
Qed.

Lemma fst_step s c :
  fst (step s c)
  = match c with
    | CreateTask now ti de pr => fst (create_task now ti de pr s)
    | UpdateTaskStatus now task_id st =>
        fst (update_task_status now task_id st s)
    | DeleteTask task_id => fst (delete_task task_id s)
    | _ => s
    end.
Proof.
  destruct c as [now ti de pr|fs fp|now task_id st|task_id| | | |task_id]; unfold step; try reflexivity.
  - now destruct (update_task_status now task_id st s).
  - now destruct (delete_task task_id s).
Qed.

Lemma store_ok_step s c : store_ok s -> store_ok (fst (step s c)).
Proof.
  intros Hs. rewrite fst_step. destruct c as [now ti de pr|fs fp|now task_id st|task_id| | | |task_id]; auto.
  - now apply store_ok_create.
  - now apply store_ok_update.
  - now apply store_ok_delete.
Qed.

Lemma store_ok_exec s cs : store_ok s -> store_ok (exec s cs).
Proof.
  revert s. induction cs as [|c cs IH]; intros s Hs; simpl; auto.
  apply IH. now apply store_ok_step.
Qed.

Lemma reachable_store_ok s : reachable s -> store_ok s.
Proof. intros [cs ->]. apply store_ok_exec, store_ok_empty. Qed.

Lemma store_ok_wf s : store_ok s -> Dict.wf (tasks s).
Proof. apply in_creation_order_wf. Qed.

Lemma store_ok_get s k t :
  store_ok s -> Dict.get (tasks s) k = Some t ->
  Task.id t = k /\ exists n, 0 < n <= task_counter s /\ k = task_id_of n.
Proof.
  intros Hs Hget. apply get_In in Hget.
  destruct (in_creation_order_In _ _ _ _ _ Hs Hget) as (n & Hn & Hk & Hid).
  eauto.
Qed.


Lemma update_task_status_store now task_id st s :
  task_counter (fst (update_task_status now task_id st s)) = task_counter s
  /\ forall k, Dict.get (tasks s) k = None ->
               Dict.get (tasks (fst (update_task_status now task_id st s))) k
               = None.
Proof.
  destruct (Dict.get (tasks s) task_id) as [t|] eqn:Hget.
  2: { destruct (update_task_status_failed now task_id st s (or_introl Hget))
         as [e ->]. auto. }
  destruct (str_in st valid_statuses) eqn:Hv.
  2: { destruct (update_task_status_failed now task_id st s (or_intror Hv))
         as [e ->]. auto. }
  destruct (update_task_status_ok now task_id st s t Hget Hv)
    as (d' & -> & _ & Hoth & _).
  cbn [fst tasks task_counter]. split; [reflexivity|].
  intros k Hk. rewrite Hoth; [exact Hk|congruence].
Qed.

Lemma task_counter_step s c :
  task_counter (fst (step s c))
  = task_counter s + (if is_create c then 1 else 0).
Proof.
  rewrite fst_step. destruct c as [now ti de pr|fs fp|now task_id st|task_id| | | |task_id]; cbn [is_create]; try lia.
  - reflexivity.
  - rewrite (proj1 (update_task_status_store now task_id st s)). lia.
  - unfold delete_task. destruct (Dict.get (tasks s) task_id); cbn; lia.
Qed.

Lemma get_step_None s c k :
  Dict.get (tasks s) k = None ->
  k <> task_id_of (task_counter s + 1) ->
  Dict.get (tasks (fst (step s c))) k = None.
Proof.
  intros Hk Hne. rewrite fst_step. destruct c as [now ti de pr|fs fp|now task_id st|task_id| | | |task_id]; auto.
  - unfold create_task; cbn [fst tasks]. now rewrite get_set_other.
  - now apply update_task_status_store.
  - unfold delete_task.
    destruct (Dict.get (tasks s) task_id) as [t|] eqn:Hget; cbn; auto.
    assert (k <> task_id) by congruence. now rewrite get_remove_other.
Qed.

Lemma retired_step s c k : retired s k -> retired (fst (step s c)) k.
Proof.
  intros [Hk (n & Hn & E)]. split.
  - apply get_step_None; auto. rewrite E. intros H.
    apply task_id_of_inj in H. lia.
  - exists n. rewrite task_counter_step. split; [lia|auto].
Qed.

Lemma retired_exec s cs k : retired s k -> retired (exec s cs) k.
Proof.
  revert s. induction cs as [|c cs IH]; intros s H; simpl; auto.
  apply IH. now apply retired_step.
Qed.

Lemma retired_delete s k t :
  store_ok s -> Dict.get (tasks s) k = Some t ->
  retired (fst (delete_task k s)) k.
Proof.
  intros Hs Hget. unfold retired, delete_task. rewrite Hget; cbn. split.
  - apply get_remove_same. now apply store_ok_wf.
  - destruct (store_ok_get _ _ _ Hs Hget) as (_ & n & Hn & E).
    exists n. split; [lia|auto].
Qed.

Lemma values_In {V} (d : Dict.t V) v :
  In v (Dict.values d) -> exists k, In (k, v) d.
Proof.
  unfold Dict.values. intros H. apply in_map_iff in H as [[k v'] [E I]].
  simpl in E. subst. eauto.
Qed.

Lemma retired_not_listed s k status priority x :
  store_ok s -> retired s k ->
  In x (listed (list_tasks status priority s)) -> Task.id x <> k.
Proof.
  intros Hs [Hk _] Hx. rewrite listed_spec in Hx.
  unfold list_tasks_spec in Hx. apply filter_In in Hx as [Hx _].
  apply values_In in Hx as [k' Hin].
  destruct (in_creation_order_In _ _ _ _ _ Hs Hin) as (n & _ & _ & Hid).
  intros E. rewrite E in Hid. subst k'.
  apply In_get in Hin; [congruence | now apply store_ok_wf].
Qed.

(** * Completion history *)

Lemma history_ok_ext s h h' :
  (forall k, h k = h' k) -> history_ok s h -> history_ok s h'.
Proof.
  intros E (Hs & Hrec & Hh). split; [exact Hs|]. split.
  - intros k t Hget. rewrite <- E. now apply Hrec.
  - intros k Hk. rewrite <- E in Hk. now apply Hh.
Qed.

Lemma history_ok_create now ti de pr s h :
  history_ok s h -> history_ok (fst (create_task now ti de pr s)) h.
Proof.
  intros (Hs & Hrec & Hh). split; [now apply store_ok_create|].
  unfold create_task; cbn [fst tasks task_counter]. split.
  - intros k t.
    destruct (String.eqb_spec k ("task_" ++ str_of_int (task_counter s + 1)))
      as [->|Hne].
    + rewrite get_set_same. intros [= <-]. cbn. split; [reflexivity|].
      split; [congruence|]. intros Hk. exfalso.
      destruct (Hh _ Hk) as (n & Hn & E).
      apply (task_id_of_inj (task_counter s + 1) n) in E. lia.
    + rewrite get_set_other by exact Hne. apply Hrec.
  - intros k Hk. destruct (Hh _ Hk) as (n & Hn & E). exists n.
    split; [lia|exact E].
Qed.

Lemma history_ok_update now task_id st s h :
  history_ok s h ->
  history_ok (fst (update_task_status now task_id st s))
             (fun k => h k || completes s (UpdateTaskStatus now task_id st) k).
Proof.
  intros (Hs & Hrec & Hh).
  split; [now apply store_ok_update|]. unfold completes.
  assert (Hfail : forall e,
             update_task_status now task_id st s = (s, Failure e) ->
             (forall k t, Dict.get (tasks s) k = Some t ->
                str_in (Task.status t) valid_statuses = true
                /\ (Task.completed_at t <> None
                    <-> h k || ((task_id =? k) && (st =? "completed")
                                && false) = true))
             /\ (forall k, h k || ((task_id =? k) && (st =? "completed")
                                   && false) = true ->
                   exists n, n <= task_counter s /\ k = task_id_of n)).
  { intros e _. split.
    - intros k t Hget. rewrite andb_false_r, orb_false_r. now apply Hrec.
    - intros k Hk. rewrite andb_false_r, orb_false_r in Hk. now apply Hh. }
  destruct (Dict.get (tasks s) task_id) as [t|] eqn:Hget.
  2: { destruct (update_task_status_failed now task_id st s (or_introl Hget))
         as [e E]. rewrite E. cbn [fst snd success]. now apply (Hfail e). }
  destruct (str_in st valid_statuses) eqn:Hv.
  2: { destruct (update_task_status_failed now task_id st s (or_intror Hv))
         as [e E]. rewrite E. cbn [fst snd success]. now apply (Hfail e). }
  destruct (update_task_status_ok now task_id st s t Hget Hv)
    as (d' & E & Hget' & Hoth & _).
  rewrite E. cbn [fst snd success tasks task_counter]. clear Hfail. split.
  - intros k t0. destruct (String.eqb_spec task_id k) as [<-|Hne].
    + rewrite Hget'. intros [= <-]. cbn [Task.status Task.completed_at].
      split; [exact Hv|]. destruct (Hrec _ _ Hget) as [_ Ht].
      destruct (st =? "completed"); cbn [andb].
      * rewrite orb_true_r. split; [reflexivity|congruence].
      * now rewrite orb_false_r.
    + rewrite Hoth by congruence. cbn [andb]. rewrite orb_false_r.
      apply Hrec.
  - intros k Hk. apply orb_true_iff in Hk as [Hk|Hk].
    + now apply Hh.
    + apply andb_true_iff in Hk as [Hk _].
      apply andb_true_iff in Hk as [Hk _]. apply String.eqb_eq in Hk.
      subst k. destruct (store_ok_get _ _ _ Hs Hget) as (_ & n & Hn & En).
      exists n. split; [lia|exact En].
Qed.

Lemma history_ok_delete task_id s h :
  history_ok s h -> history_ok (fst (delete_task task_id s)) h.
Proof.
  intros (Hs & Hrec & Hh). split; [now apply store_ok_delete|].
  unfold delete_task.
  destruct (Dict.get (tasks s) task_id) as [t|] eqn:Hget;
    cbn [fst tasks task_counter]; [|auto].
  split; [|exact Hh]. intros k t0 Hk. apply Hrec.
  destruct (String.eqb_spec k task_id) as [->|Hne].
  - rewrite get_remove_same in Hk by now apply store_ok_wf. discriminate.
  - now rewrite get_remove_other in Hk.
Qed.

Lemma history_ok_step s h c :
  history_ok s h ->
  history_ok (fst (step s c)) (fun k => h k || completes s c k).
Proof.
  intros H. rewrite fst_step.
  destruct c as [now ti de pr|fs fp|now task_id st|task_id| | | |task_id];
    try (apply (history_ok_ext _ h); [intros k; cbn; now rewrite orb_false_r|]);
    auto.
  - now apply history_ok_create.
  - now apply history_ok_update.
  - now apply history_ok_delete.
Qed.

Lemma history_ok_exec cs s h :
  history_ok s h ->
  history_ok (exec s cs) (fun k => h k || ever_completed s cs k).
Proof.
  revert s h. induction cs as [|c cs IH]; intros s h H; simpl.
  - apply (history_ok_ext _ h); auto. intros k. now rewrite orb_false_r.
  - apply (history_ok_ext _ (fun k => (h k || completes s c k)
                                      || ever_completed (fst (step s c)) cs k)).
    + intros k. now rewrite orb_assoc.
    + apply IH. now apply history_ok_step.
Qed.

Lemma history_ok_empty : history_ok empty_store (fun _ => false).
Proof.
  split; [exact I|]. split; [discriminate|discriminate].
Qed.

(** * Sessions, listing and statistics *)

Lemma occurrences_pos f k l :
  occurrences f k l <> 0 <-> exists t, In t l /\ f t = k.
Proof.
  unfold occurrences. split.
  - intros H. destruct (filter (fun t => f t =? k) l) as [|t r] eqn:E;
      [easy|].
    assert (Hin : In t (filter (fun t => f t =? k) l))
      by (rewrite E; now left).
    apply filter_In in Hin as [Hin Hk]. apply String.eqb_eq in Hk. eauto.
  - intros (t & Hin & Hk) H. apply length_zero_iff_nil in H.
    assert (Hf : In t (filter (fun t => f t =? k) l)).
    { apply filter_In. split; auto. now apply String.eqb_eq. }
    now rewrite H in Hf.
Qed.

Lemma keys_tally f l d k :
  In k (Dict.keys (tally f l d))
  <-> In k (Dict.keys d) \/ exists t, In t l /\ f t = k.
Proof.
  rewrite <- occurrences_pos.
  assert (Hd : forall d0 : Dict.t nat,
             In k (Dict.keys d0) <-> Dict.get d0 k <> None).
  { intros d0. pose proof (get_None d0 k) as H.
    destruct (Dict.get d0 k); split; intros; try easy.
    - destruct (in_dec string_dec k (Dict.keys d0)) as [|Hn]; auto.
      apply H in Hn. discriminate.
    - exfalso. apply H in H0; auto. }
  rewrite !Hd, get_tally.
  destruct (Dict.get d k) as [n|].
  - split; [left|]; discriminate.
  - destruct (Nat.eqb_spec (occurrences f k l) 0) as [->|Hne].
    + split; [easy|]. intros [H|H]; now elim H.
    + split; [auto|discriminate].
Qed.

(** The tasks listed from a well-ordered store come in creation order. *)
Lemma in_creation_order_filter (p : Task -> bool) lo hi d :
  in_creation_order lo hi d ->
  exists ns, map Task.id (filter p (Dict.values d)) = map task_id_of ns
             /\ StronglySorted lt ns /\ Forall (lt lo) ns.
Proof.
  revert lo. induction d as [|[k t] r IH]; intros lo; simpl.
  - intros _. exists []. repeat constructor.
  - intros (n & Hn & Hk & Hid & Hr).
    destruct (IH n Hr) as (ns & E & Hsort & Hlo).
    assert (Hlo' : Forall (lt lo) ns).
    { eapply Forall_impl; [|exact Hlo]. simpl. intros; lia. }
    destruct (p t); simpl.
    + exists (n :: ns). rewrite E, Hid, Hk. repeat split; auto.
      * now constructor.
      * constructor; [lia|auto].
    + exists ns. auto.
Qed.

Lemma created_ids_transcript cs s :
  created_ids (transcript s cs)
  = map task_id_of (seq (task_counter s + 1) (creations cs))
  /\ task_counter (exec s cs) = task_counter s + creations cs.
Proof.
  revert s. induction cs as [|c cs IH]; intros s.
  - cbn. split; [reflexivity|lia].
  - destruct (IH (fst (step s c))) as [IH1 IH2].
    cbn [transcript exec]. rewrite IH2, task_counter_step.
    unfold created_ids in *. cbn [flat_map]. rewrite IH1, task_counter_step.
    unfold creations. cbn [filter].
    destruct c as [now ti de pr|fs fp|now task_id st|task_id| | | |task_id];
      cbn [is_create length]; rewrite ?Nat.add_0_r;
      try (split; [reflexivity|lia]).
    split; [|lia]. cbn [step create_task snd Task.id app seq map].
    now rewrite (Nat.add_1_r (task_counter s + 1)).
Qed.

(** C3: [list_tasks] returns the stored tasks that pass both filters, in
    the order in which the store holds them, their number, and the two
    filters as given.  A task is listed exactly when it is stored and each
    filter is "all" or equals the task's field; when no stored task passes,
    the answer is the empty list with total 0.  In a store of a running
    server the listed identifiers are in creation order. *)
Theorem list_tasks_filters status priority s :
  list_tasks status priority s
  = mkListResult (length (list_tasks_spec status priority s))
                 (list_tasks_spec status priority s)
                 (status, priority)
  /\ (forall t,
        In t (listed (list_tasks status priority s))
        <-> In t (Dict.values (tasks s))
            /\ (status = "all" \/ Task.status t = status)
            /\ (priority = "all" \/ Task.priority t = priority))
  /\ ((forall t, In t (Dict.values (tasks s)) ->
                 passes status priority t = false) ->
      listed (list_tasks status priority s) = []
      /\ total (list_tasks status priority s) = 0)
  /\ (reachable s ->
      exists ns,
        map Task.id (listed (list_tasks status priority s))
        = map task_id_of ns
        /\ StronglySorted lt ns).
Proof.
  assert (E : list_tasks status priority s
              = mkListResult (length (list_tasks_spec status priority s))
                             (list_tasks_spec status priority s)
                             (status, priority)).
  { unfold list_tasks. now rewrite list_tasks_loop. }
  rewrite E; cbn [listed total]. unfold list_tasks_spec.
  split; [reflexivity|]. split; [|split].
  - intros t. rewrite filter_In. unfold passes.
    rewrite andb_true_iff, !orb_true_iff, !String.eqb_eq. tauto.
  - intros Hnone.
    assert (Hnil : filter (passes status priority) (Dict.values (tasks s))
                   = []).
    { destruct (filter _ _) as [|t r] eqn:Ef; [reflexivity|].
      assert (Hin : In t (filter (passes status priority)
                                 (Dict.values (tasks s))))
        by (rewrite Ef; now left).
      apply filter_In in Hin as [Hin Hp]. rewrite Hnone in Hp by exact Hin.
      discriminate. }
    now rewrite Hnil.
  - intros Hr. apply reachable_store_ok in Hr.
    destruct (in_creation_order_filter (passes status priority) _ _ _ Hr)
      as (ns & Hns & Hsort & _).
    eauto.
Qed.

Lemma list_tasks_filters_witness :
  reachable (exec empty_store demo_session)
  /\ exists ns,
      map Task.id (listed (list_tasks "pending" "all"
                                      (exec empty_store demo_session)))
      = map task_id_of ns
      /\ StronglySorted lt ns.
Proof.
  assert (Hr : reachable (exec empty_store demo_session))
    by (exists demo_session; reflexivity).
  split; [exact Hr|].
  exact (proj2 (proj2 (proj2
           (list_tasks_filters "pending" "all"
              (exec empty_store demo_session)))) Hr).
Defined.

Example list_tasks_demo :
  list_tasks "pending" "all" (exec empty_store demo_session)
  = mkListResult 2
      [ Task.mk "task_1" "Write spec" "draft v1" "medium" "pending" t0
                (Some t2);
        Task.mk "task_3" "Review" "second pass" "high" "pending" t3 None ]
      ("pending", "all").
Proof. reflexivity. Qed.

(** C2: in [get_task_stats], [total_tasks] is the number of stored tasks
    and the sum of the [by_status] counts; [by_status] always has pending,
    in_progress and completed, each with its number of occurrences (zero
    when there is none); [by_priority] has low, medium and high and, beyond
    them, exactly the priorities found among the stored tasks, once each,
    every key with its number of occurrences. *)
Theorem get_task_stats_counts s :
  let r := get_task_stats s in
  let ts := Dict.values (tasks s) in
  total_tasks r = Dict.len (tasks s)
  /\ sum_values (by_status r) = total_tasks r
  /\ (forall k, In k ["pending"; "in_progress"; "completed"] ->
                Dict.get (by_status r) k
                = Some (occurrences Task.status k ts))
  /\ (forall k, In k ["low"; "medium"; "high"] ->
                Dict.get (by_priority r) k
                = Some (occurrences Task.priority k ts))
  /\ (forall k, In k (Dict.keys (by_priority r))
                <-> In k ["low"; "medium"; "high"]
                    \/ exists t, In t ts /\ Task.priority t = k)
  /\ (forall k n, Dict.get (by_priority r) k = Some n ->
                  n = occurrences Task.priority k ts)
  /\ Dict.wf (by_status r) /\ Dict.wf (by_priority r).
Proof.
  intros r ts. subst r ts. unfold get_task_stats.
  rewrite get_task_stats_loop. cbn [total_tasks by_status by_priority fst snd].
  split; [reflexivity|]. split.
  { rewrite sum_values_tally. unfold Dict.len, Dict.values.
    now rewrite length_map. }
  split.
  { intros k Hk. rewrite get_tally.
    destruct Hk as [<-|[<-|[<-|[]]]]; reflexivity. }
  split.
  { intros k Hk. rewrite get_tally.
    destruct Hk as [<-|[<-|[<-|[]]]]; reflexivity. }
  split.
  { intros k. now rewrite keys_tally. }
  split.
  { intros k n. rewrite get_tally.
    destruct (Dict.get [("low", 0); ("medium", 0); ("high", 0)] k) as [m|] eqn:E.
    - assert (m = 0) as ->.
      { apply get_In in E. destruct E as [E|[E|[E|[]]]]; congruence. }
      now intros [= <-].
    - destruct (Nat.eqb _ 0); [discriminate|]. now intros [= <-]. }
  split; apply wf_tally; unfold Dict.wf; cbn; repeat constructor; cbn;
    intuition discriminate.
Qed.

Example get_task_stats_scenario :
  get_task_stats
    (exec empty_store
       [ CreateTask t0 "Write spec" "draft v1" "medium";
         UpdateTaskStatus t2 "task_1" "completed" ])
  = mkStatsResult 1
      [("pending", 0); ("in_progress", 0); ("completed", 1)]
      [("low", 0); ("medium", 1); ("high", 0)].
Proof. reflexivity. Qed.

Example get_task_stats_demo :
  get_task_stats (exec empty_store demo_setup)
  = mkStatsResult 2
      [("pending", 2); ("in_progress", 0); ("completed", 0)]
      [("low", 0); ("medium", 1); ("high", 0); ("urgent", 1)].
Proof. reflexivity. Qed.

(** C5: [delete_task] on an id that is not stored answers the NotFound
    failure and returns the store as it was.  On a stored id it answers
    with the record held under that id, takes exactly that entry out of the
    mapping (the entries before and after it stay, in order), leaves the
    counter alone, and, on a running server, no later [list_tasks] of the
    session, whatever its filters and whatever calls came in between,
    lists a task with that id. *)
Theorem delete_task_spec task_id s :
  match Dict.get (tasks s) task_id with
  | None =>
      delete_task task_id s
      = (s, Failure ("Task " ++ task_id ++ " not found"))
  | Some t =>
      exists s',
        delete_task task_id s
        = (s', Deleted ("Task " ++ task_id ++ " deleted successfully") t)
        /\ task_counter s' = task_counter s
        /\ (exists d1 d2,
              tasks s = (d1 ++ (task_id, t) :: d2)%list
              /\ tasks s' = (d1 ++ d2)%list
              /\ ~ In task_id (Dict.keys d1))
        /\ (forall k, k <> task_id ->
                      Dict.get (tasks s') k = Dict.get (tasks s) k)
        /\ S (Dict.len (tasks s')) = Dict.len (tasks s)
        /\ (reachable s ->
            Dict.get (tasks s') task_id = None
            /\ forall cs status priority x,
                In x (listed (list_tasks status priority (exec s' cs))) ->
                Task.id x <> task_id)
  end.
Proof.
  destruct (Dict.get (tasks s) task_id) as [t|] eqn:Hget.
  - assert (E : delete_task task_id s
                = (mkStore (Dict.remove (tasks s) task_id) (task_counter s),
                   Deleted ("Task " ++ task_id ++ " deleted successfully") t))
      by (unfold delete_task; now rewrite Hget).
    exists (mkStore (Dict.remove (tasks s) task_id) (task_counter s)).
    cbn [tasks task_counter].
    split; [exact E|]. split; [reflexivity|].
    split; [now apply remove_split|].
    split; [intros k Hk; now apply get_remove_other|].
    split; [now apply (len_remove _ _ t)|].
    intros Hr. apply reachable_store_ok in Hr.
    pose proof (retired_delete _ _ _ Hr Hget) as Hret.
    pose proof (store_ok_delete task_id s Hr) as Hok.
    rewrite E in Hret, Hok. cbn [fst] in Hret, Hok.
    split; [apply get_remove_same; now apply store_ok_wf|].
    intros cs status priority x.
    apply retired_not_listed.
    + now apply store_ok_exec.
    + now apply retired_exec.
  - unfold delete_task. now rewrite Hget.
Qed.

Lemma delete_task_spec_witness :
  reachable demo_done
  /\ ~ In "task_2"
        (map Task.id
           (listed (list_tasks "all" "all"
                      (exec (fst (delete_task "task_2" demo_done))
                            [CreateTask t3 "Review" "second pass" "high"])))).
Proof.
  assert (Hr : reachable demo_done).
  { exists (demo_setup ++ [UpdateTaskStatus t2 "task_1" "completed"])%list.
    reflexivity. }
  split; [exact Hr|].
  pose proof (delete_task_spec "task_2" demo_done) as H.
  change (Dict.get (tasks demo_done) "task_2")
    with (Some (Task.mk "task_2" "Ship release" "tag and publish" "urgent"
                        "pending" t1 None)) in H.
  cbv beta iota in H.
  destruct H as (s' & E & _ & _ & _ & _ & Hlater).
  destruct (Hlater Hr) as [_ Hnever].
  rewrite E. cbn [fst]. intros Hin.
  apply in_map_iff in Hin as (x & Hid & Hx).
  exact (Hnever _ _ _ _ Hx Hid).
Defined.

Example delete_task_missing :
  delete_task "task_99" demo_done
  = (demo_done, Failure "Task task_99 not found").
Proof. reflexivity. Qed.

(** C6: over any session of a fresh server, with whatever updates and
    deletes in between, the N [create_task] calls hand out task_1, ...,
    task_N in this order; no identifier is handed out twice; the counter
    ends at N, because every call adds one to it when it is a creation and
    leaves it alone otherwise, deletes included. *)
Theorem task_ids_sequential cs :
  let ids := created_ids (transcript empty_store cs) in
  ids = map task_id_of (seq 1 (creations cs))
  /\ NoDup ids
  /\ task_counter (exec empty_store cs) = creations cs
  /\ (forall s c,
        task_counter (fst (step s c))
        = task_counter s + (if is_create c then 1 else 0))
  /\ (forall s task_id,
        task_counter (fst (delete_task task_id s)) = task_counter s).
Proof.
  intros ids. subst ids.
  destruct (created_ids_transcript cs empty_store) as [E1 E2].
  cbn [task_counter empty_store Nat.add] in E1, E2.
  rewrite E1. split; [reflexivity|]. split.
  - apply Finite.Injective_map_NoDup; [|apply seq_NoDup].
    intros n m. apply task_id_of_inj.
  - split; [exact E2|]. split; [apply task_counter_step|].
    intros s task_id.
    pose proof (task_counter_step s (DeleteTask task_id)) as H.
    rewrite fst_step in H. cbn [is_create] in H. lia.
Qed.

Example task_ids_demo :
  created_ids (transcript empty_store demo_session)
  = ["task_1"; "task_2"; "task_3"].
Proof. reflexivity. Qed.

(** C7: [create_task] succeeds on every input.  It adds one to the
    counter, stores under the id "task_" + counter a record with the given
    title, description and priority as they are, status pending, the
    current instant as [created_at] and no [completed_at], and returns that
    record with the success flag.  Nothing else in the mapping changes, and
    on a running server the record is a new last entry. *)
Theorem create_task_always_succeeds now ti de pr s :
  let t :=
    Task.mk ("task_" ++ str_of_int (task_counter s + 1)) ti de pr "pending"
            now None in
  let s' := fst (create_task now ti de pr s) in
  create_task now ti de pr s = (s', Success "Task created successfully" t)
  /\ success (snd (create_task now ti de pr s)) = true
  /\ task_counter s' = task_counter s + 1
  /\ Dict.get (tasks s') (Task.id t) = Some t
  /\ (forall k, k <> Task.id t ->
                Dict.get (tasks s') k = Dict.get (tasks s) k)
  /\ (reachable s ->
      Dict.get (tasks s) (Task.id t) = None
      /\ tasks s' = (tasks s ++ [(Task.id t, t)])%list).
Proof.
  intros t s'. subst t s'. unfold create_task.
  cbn [fst snd tasks task_counter success Task.id].
  split; [reflexivity|]. split; [reflexivity|]. split; [reflexivity|].
  split; [apply get_set_same|].
  split; [intros k Hk; now apply get_set_other|].
  intros Hr. apply reachable_store_ok in Hr.
  assert (Hfresh : Dict.get (tasks s)
                     ("task_" ++ str_of_int (task_counter s + 1)) = None).
  { apply (in_creation_order_fresh 0 (task_counter s)); [exact Hr|lia]. }
  split; [exact Hfresh|]. now apply set_fresh.
Qed.

Lemma create_task_always_succeeds_witness :
  reachable demo_done
  /\ tasks (fst (create_task t3 "Review" "" "whenever" demo_done))
     = (tasks demo_done
        ++ [("task_3",
             Task.mk "task_3" "Review" "" "whenever" "pending" t3 None)])%list.
Proof.
  assert (Hr : reachable demo_done).
  { exists (demo_setup ++ [UpdateTaskStatus t2 "task_1" "completed"])%list.
    reflexivity. }
  split; [exact Hr|].
  destruct (create_task_always_succeeds t3 "Review" "" "whenever" demo_done)
    as (_ & _ & _ & _ & _ & H).
  exact (proj2 (H Hr)).
Defined.

(** One call moves the status field of [k] to completed exactly when it is
    a successful update of [k] to completed. *)
Lemma has_status_step s c k :
  store_ok s ->
  has_status s k "completed"
  || has_status (fst (step s c)) k "completed"
  = has_status s k "completed" || completes s c k.
Proof.
  intros Hs. rewrite fst_step. unfold has_status, completes.
  destruct c as [now ti de pr|fs fp|now task_id st|task_id| | | |task_id];
    try (rewrite orb_false_r; now destruct (Dict.get (tasks s) k) as [t|];
         [destruct (Task.status t =? "completed")|]).
  - unfold create_task. cbn [fst tasks].
    destruct (String.eqb_spec k ("task_" ++ str_of_int (task_counter s + 1)))
      as [->|Hne].
    + assert (Hfresh : Dict.get (tasks s)
                         ("task_" ++ str_of_int (task_counter s + 1)) = None).
      { apply (in_creation_order_fresh 0 (task_counter s) (tasks s)
                 (task_counter s + 1) Hs). lia. }
      now rewrite get_set_same, Hfresh.
    + rewrite get_set_other by exact Hne. rewrite orb_false_r.
      destruct (Dict.get (tasks s) k) as [t|]; [|reflexivity].
      now destruct (Task.status t =? "completed").
  - destruct (Dict.get (tasks s) task_id) as [t0|] eqn:Hid.
    2: { destruct (update_task_status_failed now task_id st s
                     (or_introl Hid)) as [e ->].
         cbn [fst snd success]. rewrite andb_false_r, orb_false_r.
         destruct (Dict.get (tasks s) k) as [t|]; [|reflexivity].
         now destruct (Task.status t =? "completed"). }
    destruct (str_in st valid_statuses) eqn:Hv.
    2: { destruct (update_task_status_failed now task_id st s
                     (or_intror Hv)) as [e ->].
         cbn [fst snd success]. rewrite andb_false_r, orb_false_r.
         destruct (Dict.get (tasks s) k) as [t|]; [|reflexivity].
         now destruct (Task.status t =? "completed"). }
    destruct (update_task_status_ok now task_id st s t0 Hid Hv)
      as (d' & -> & Hget' & Hoth & _).
    cbn [fst snd success tasks]. rewrite andb_true_r.
    destruct (String.eqb_spec task_id k) as [<-|Hne].
    + rewrite Hget'. cbn [Task.status andb]. reflexivity.
    + rewrite Hoth by congruence. cbn [andb]. rewrite orb_false_r.
      destruct (Dict.get (tasks s) k) as [t|]; [|reflexivity].
      now destruct (Task.status t =? "completed").
  - rewrite orb_false_r. unfold delete_task.
    destruct (Dict.get (tasks s) task_id) as [t0|] eqn:Hid;
      cbn [fst tasks].
    + destruct (String.eqb_spec k task_id) as [->|Hne].
      * rewrite get_remove_same by now apply store_ok_wf.
        now rewrite orb_false_r.
      * rewrite get_remove_other by exact Hne.
        destruct (Dict.get (tasks s) k) as [t|]; [|reflexivity].
        now destruct (Task.status t =? "completed").
    + destruct (Dict.get (tasks s) k) as [t|]; [|reflexivity].
      now destruct (Task.status t =? "completed").
Qed.

(** The status field of [k] read completed in some store of the session
    exactly when it did at the start or some call set it so. *)
Lemma was_completed_spec cs s k :
  store_ok s ->
  was_completed s cs k
  = has_status s k "completed" || ever_completed s cs k.
Proof.
  revert s. induction cs as [|c cs IH]; intros s Hs; [reflexivity|].
  cbn [was_completed ever_completed].
  rewrite (IH _ (store_ok_step s c Hs)), !orb_assoc.
  now rewrite (has_status_step s c k Hs).
Qed.

(** C8: in every store that a session reaches from the empty store, each
    entry is filed under the [id] of its record, its status is pending,
    in_progress or completed, and its [completed_at] is present exactly
    when the status field of that task has read completed in some store of
    the session, which is exactly when some call of the session set the
    status of that task to completed. *)
Theorem reachable_tasks_invariant cs k t :
  In (k, t) (tasks (exec empty_store cs)) ->
  Task.id t = k
  /\ (Task.status t = "pending" \/ Task.status t = "in_progress"
      \/ Task.status t = "completed")
  /\ (Task.completed_at t <> None
      <-> was_completed empty_store cs k = true)
  /\ (Task.completed_at t <> None
      <-> ever_completed empty_store cs k = true).
Proof.
  intros Hin.
  destruct (history_ok_exec cs _ _ history_ok_empty) as (Hs & Hrec & _).
  apply In_get in Hin; [|now apply store_ok_wf].
  destruct (store_ok_get _ _ _ Hs Hin) as [Hid _].
  destruct (Hrec _ _ Hin) as [Hv Hc]. cbn [orb] in Hc.
  split; [exact Hid|]. split; [now apply valid_statuses_spec|].
  split; [|exact Hc].
  rewrite (was_completed_spec cs empty_store k store_ok_empty).
  exact Hc.
Qed.

Lemma reachable_tasks_invariant_witness :
  In ("task_1",
      Task.mk "task_1" "Write spec" "draft v1" "medium" "pending" t0 (Some t2))
     (tasks (exec empty_store demo_session))
  /\ was_completed empty_store demo_session "task_1" = true
  /\ ever_completed empty_store demo_session "task_1" = true.
Proof.
  assert (Hin : In ("task_1",
                    Task.mk "task_1" "Write spec" "draft v1" "medium"
                            "pending" t0 (Some t2))
                   (tasks (exec empty_store demo_session)))
    by (left; reflexivity).
  split; [exact Hin|].
  destruct (reachable_tasks_invariant demo_session _ _ Hin)
    as (_ & _ & Hw & Hc).
  split; [apply Hw|apply Hc]; discriminate.
Defined.

Example never_completed_demo :
  ever_completed empty_store demo_session "task_3" = false
  /\ Dict.get (tasks (exec empty_store demo_session)) "task_3"
     = Some (Task.mk "task_3" "Review" "second pass" "high" "pending" t3 None).
Proof. split; reflexivity. Qed.

Example was_completed_demo :
  was_completed empty_store demo_session "task_1" = true
  /\ has_status (exec empty_store demo_session) "task_1" "completed" = false
  /\ was_completed empty_store demo_session "task_3" = false.
Proof. repeat split. Qed.

(** * More about dicts *)

Section DictValues.
Context {V : Type}.
Implicit Types (d : Dict.t V) (k : string) (v : V).

Lemma values_set_Forall (P : V -> Prop) d k v :
  Forall P (Dict.values d) -> P v -> Forall P (Dict.values (Dict.set d k v)).
Proof.
  intros Hd Hv. induction d as [|[k' v'] r IH]; simpl.
  - now constructor.
  - inversion Hd; subst.
    destruct (k' =? k); simpl; constructor; auto.
Qed.

Lemma values_mutate_Forall (P : V -> Prop) d k f :
  (forall x, P x -> P (f x)) ->
  Forall P (Dict.values d) -> Forall P (Dict.values (Dict.mutate d k f)).
Proof.
  intros Hf Hd. induction d as [|[k' v'] r IH]; simpl; [constructor|].
  inversion Hd; subst.
  destruct (k' =? k); simpl; constructor; auto.
Qed.

Lemma values_remove_Forall (P : V -> Prop) d k :
  Forall P (Dict.values d) -> Forall P (Dict.values (Dict.remove d k)).
Proof.
  intros Hd. induction d as [|[k' v'] r IH]; simpl; [constructor|].
  inversion Hd; subst.
  destruct (k' =? k); simpl; [assumption|constructor; auto].
Qed.

Lemma mutate_fixed d k f :
  (forall v, Dict.get d k = Some v -> f v = v) -> Dict.mutate d k f = d.
Proof.
  induction d as [|[k' v'] r IH]; simpl; [reflexivity|].
  destruct (k' =? k); intros Hf.
  - now rewrite Hf.
  - now rewrite IH.
Qed.

Lemma len_mutate d k f : Dict.len (Dict.mutate d k f) = Dict.len d.
Proof.
  unfold Dict.len. induction d as [|[k' v'] r IH]; simpl; [reflexivity|].
  destruct (k' =? k); simpl; congruence.
Qed.

Lemma remove_last_fresh d k v :
  Dict.get d k = None -> Dict.remove (d ++ [(k, v)])%list k = d.
Proof.
  induction d as [|[k' v'] r IH]; simpl.
  - now rewrite String.eqb_refl.
  - destruct (k' =? k); [discriminate|]. intros H. now rewrite IH.
Qed.

Lemma In_keys_get d k :
  In k (Dict.keys d) <-> exists v, Dict.get d k = Some v.
Proof.
  pose proof (get_None d k) as H. destruct (Dict.get d k) as [v|].
  - split; [eauto|]. intros _.
    destruct (in_dec string_dec k (Dict.keys d)) as [|Hn]; auto.
    apply H in Hn. discriminate.
  - split; [|intros [v Hv]; discriminate].
    intros Hin. exfalso. now apply H.
Qed.
End DictValues.

(** * Listing, resources and statistics together *)

Lemma total_spec status priority s :
  total (list_tasks status priority s)
  = length (list_tasks_spec status priority s).
Proof. unfold list_tasks; cbn [total]. now rewrite list_tasks_loop. Qed.

Lemma filter_all (A : Type) (p : A -> bool) (l : list A) :
  (forall x, p x = true) -> filter p l = l.
Proof.
  intros Hp. induction l as [|x l IH]; simpl; [reflexivity|].
  now rewrite Hp, IH.
Qed.

Lemma passes_all t : passes "all" "all" t = true.
Proof. reflexivity. Qed.

Lemma passes_status st t :
  st <> "all" -> passes st "all" t = (Task.status t =? st).
Proof.
  intros H. apply String.eqb_neq in H. unfold passes. rewrite H.
  cbn. now rewrite andb_true_r.
Qed.

Lemma passes_priority pr t :
  pr <> "all" -> passes "all" pr t = (Task.priority t =? pr).
Proof.
  intros H. apply String.eqb_neq in H. unfold passes. now rewrite H.
Qed.

Lemma total_by_status st s :
  st <> "all" ->
  total (list_tasks st "all" s)
  = occurrences Task.status st (Dict.values (tasks s)).
Proof.
  intros H. rewrite total_spec. unfold list_tasks_spec, occurrences.
  f_equal. apply filter_ext. intros t. now apply passes_status.
Qed.

Lemma total_by_priority pr s :
  pr <> "all" ->
  total (list_tasks "all" pr s)
  = occurrences Task.priority pr (Dict.values (tasks s)).
Proof.
  intros H. rewrite total_spec. unfold list_tasks_spec, occurrences.
  f_equal. apply filter_ext. intros t. now apply passes_priority.
Qed.

(** X1: the resource tasks://all is the unfiltered listing: the same tasks
    in the same order as [list_tasks] with both filters at "all", and its
    count is that listing's total, the size of the mapping and the
    [total_tasks] of the resource tasks://stats. *)
Theorem all_tasks_resource_is_unfiltered_list s :
  all_tasks (get_all_tasks_resource s) = listed (list_tasks "all" "all" s)
  /\ count (get_all_tasks_resource s) = total (list_tasks "all" "all" s)
  /\ count (get_all_tasks_resource s) = Dict.len (tasks s)
  /\ count (get_all_tasks_resource s) = total_tasks (get_stats_resource s).
Proof.
  rewrite total_spec, listed_spec. unfold list_tasks_spec.
  rewrite (filter_all _ _ _ passes_all).
  unfold get_all_tasks_resource; cbn [all_tasks count].
  unfold Dict.len, Dict.values. rewrite length_map. auto.
Qed.

(** X2: the statistics agree with the listings.  For a key other than the
    sentinel "all", a count found under that key in [by_status] is the
    total of the listing filtered on that status, and a count found in
    [by_priority] is the total of the listing filtered on that priority. *)
Theorem stats_agree_with_listing k s :
  k <> "all" ->
  (forall n, Dict.get (by_status (get_task_stats s)) k = Some n ->
             n = total (list_tasks k "all" s))
  /\ (forall n, Dict.get (by_priority (get_task_stats s)) k = Some n ->
                n = total (list_tasks "all" k s)).
Proof.
  intros Hk. rewrite total_by_status, total_by_priority by exact Hk.
  unfold get_task_stats. rewrite get_task_stats_loop.
  cbn [by_status by_priority fst snd]. split; intros n; rewrite get_tally.
  - destruct (Dict.get _ k) as [m|] eqn:E.
    + assert (m = 0) as ->.
      { apply get_In in E. destruct E as [E|[E|[E|[]]]]; congruence. }
      now intros [= <-].
    + destruct (Nat.eqb _ 0); [discriminate|]. now intros [= <-].
  - destruct (Dict.get _ k) as [m|] eqn:E.
    + assert (m = 0) as ->.
      { apply get_In in E. destruct E as [E|[E|[E|[]]]]; congruence. }
      now intros [= <-].
    + destruct (Nat.eqb _ 0); [discriminate|]. now intros [= <-].
Qed.

Lemma stats_agree_with_listing_witness :
  "urgent" <> "all"
  /\ 1 = total (list_tasks "all" "urgent" demo_done).
Proof.
  assert (H : "urgent" <> "all") by discriminate.
  split; [exact H|].
  exact (proj2 (stats_agree_with_listing "urgent" demo_done H) 1 eq_refl).
Defined.

(** X3: the counts of [by_priority] add up to [total_tasks], whatever
    priorities the tasks carry. *)
Theorem by_priority_sums_to_total s :
  sum_values (by_priority (get_task_stats s)) = total_tasks (get_task_stats s).
Proof.
  unfold get_task_stats. rewrite get_task_stats_loop.
  cbn [by_priority total_tasks snd]. rewrite sum_values_tally.
  unfold Dict.len, Dict.values. now rewrite length_map.
Qed.

(** X4: a task is listed under a status filter and a priority filter
    exactly when it is listed under each of the two filters alone. *)
Theorem list_tasks_both_filters status priority s t :
  In t (listed (list_tasks status priority s))
  <-> In t (listed (list_tasks status "all" s))
      /\ In t (listed (list_tasks "all" priority s)).
Proof.
  rewrite !listed_spec. unfold list_tasks_spec. rewrite !filter_In.
  unfold passes. cbn [String.eqb Ascii.eqb Bool.eqb orb andb].
  rewrite andb_true_r, andb_true_iff. tauto.
Qed.

(** * Stores of a running server, continued *)

Lemma reachable_status s t :
  reachable s -> In t (Dict.values (tasks s)) ->
  Task.status t = "pending" \/ Task.status t = "in_progress"
  \/ Task.status t = "completed".
Proof.
  intros [cs ->] Hin.
  destruct (history_ok_exec cs _ _ history_ok_empty) as (Hs & Hrec & _).
  apply values_In in Hin as [k Hin].
  apply In_get in Hin; [|now apply store_ok_wf].
  apply valid_statuses_spec. now apply (Hrec k t).
Qed.

Lemma occurrences_partition l :
  (forall t, In t l ->
     Task.status t = "pending" \/ Task.status t = "in_progress"
     \/ Task.status t = "completed") ->
  occurrences Task.status "pending" l
  + occurrences Task.status "in_progress" l
  + occurrences Task.status "completed" l
  = length l.
Proof.
  induction l as [|t l IH]; intros H; [reflexivity|].
  rewrite !occurrences_cons. cbn [length].
  rewrite <- IH by (intros x Hx; apply H; now right).
  destruct (H t (or_introl eq_refl)) as [E|[E|E]]; rewrite E; cbn; lia.
Qed.

(** X5: on a running server the three status listings split the store:
    the totals of the listings filtered on pending, on in_progress and on
    completed add up to the number of stored tasks. *)
Theorem status_listings_partition s :
  reachable s ->
  total (list_tasks "pending" "all" s)
  + total (list_tasks "in_progress" "all" s)
  + total (list_tasks "completed" "all" s)
  = Dict.len (tasks s).
Proof.
  intros Hr. rewrite !total_by_status by discriminate.
  rewrite occurrences_partition by (intros t; now apply reachable_status).
  unfold Dict.len, Dict.values. now rewrite length_map.
Qed.

Lemma status_listings_partition_witness :
  reachable (exec empty_store demo_session)
  /\ total (list_tasks "pending" "all" (exec empty_store demo_session))
     + total (list_tasks "in_progress" "all" (exec empty_store demo_session))
     + total (list_tasks "completed" "all" (exec empty_store demo_session))
     = 2.
Proof.
  assert (Hr : reachable (exec empty_store demo_session))
    by (exists demo_session; reflexivity).
  split; [exact Hr|]. exact (status_listings_partition _ Hr).
Defined.

Lemma keys_tally_fixed f l d :
  (forall t, In t l -> In (f t) (Dict.keys d)) ->
  Dict.keys (tally f l d) = Dict.keys d.
Proof.
  unfold tally. revert d. induction l as [|t l IH]; intros d H; simpl.
  - reflexivity.
  - assert (Hk : Dict.keys (bump d (f t)) = Dict.keys d).
    { destruct (proj1 (In_keys_get d (f t)) (H t (or_introl eq_refl)))
        as [n Hn].
      unfold bump. now apply (set_present _ _ _ n). }
    rewrite IH; [exact Hk|]. intros x Hx. rewrite Hk. apply H. now right.
Qed.

(** X6: on a running server [by_status] has exactly the keys pending,
    in_progress and completed, in this order: no stored task brings another
    status into the breakdown. *)
Theorem by_status_keys_fixed s :
  reachable s ->
  Dict.keys (by_status (get_task_stats s))
  = ["pending"; "in_progress"; "completed"].
Proof.
  intros Hr. unfold get_task_stats. rewrite get_task_stats_loop.
  cbn [by_status fst]. rewrite keys_tally_fixed; [reflexivity|].
  intros t Ht. cbn. destruct (reachable_status s t Hr Ht) as [E|[E|E]];
    rewrite E; auto.
Qed.

Lemma by_status_keys_fixed_witness :
  reachable (exec empty_store demo_session)
  /\ Dict.keys (by_status (get_task_stats (exec empty_store demo_session)))
     = ["pending"; "in_progress"; "completed"].
Proof.
  assert (Hr : reachable (exec empty_store demo_session))
    by (exists demo_session; reflexivity).
  split; [exact Hr|]. exact (by_status_keys_fixed _ Hr).
Defined.

Lemma in_creation_order_ids lo hi d :
  in_creation_order lo hi d -> map Task.id (Dict.values d) = Dict.keys d.
Proof.
  revert lo. induction d as [|[k t] r IH]; intros lo; simpl; [reflexivity|].
  intros (n & _ & _ & Hid & Hr). now rewrite Hid, (IH n).
Qed.

Lemma NoDup_map_filter (A B : Type) (g : A -> B) (p : A -> bool) l :
  NoDup (map g l) -> NoDup (map g (filter p l)).
Proof.
  induction l as [|x l IH]; simpl; [auto|].
  intros H. inversion H as [|? ? Hn Hl]; subst.
  destruct (p x); simpl; [|auto]. constructor; [|auto].
  intros Hin. apply Hn. apply in_map_iff in Hin as (y & E & Hy).
  apply filter_In in Hy as [Hy _]. apply in_map_iff. eauto.
Qed.

(** X7: on a running server no two listed tasks share an id, under any
    filters; the same holds for the resource tasks://all. *)
Theorem listed_ids_distinct status priority s :
  reachable s ->
  NoDup (map Task.id (listed (list_tasks status priority s)))
  /\ NoDup (map Task.id (all_tasks (get_all_tasks_resource s))).
Proof.
  intros Hr. apply reachable_store_ok in Hr.
  assert (H : NoDup (map Task.id (Dict.values (tasks s)))).
  { rewrite (in_creation_order_ids _ _ _ Hr). now apply store_ok_wf. }
  split; [|exact H].
  rewrite listed_spec. unfold list_tasks_spec. now apply NoDup_map_filter.
Qed.

Lemma listed_ids_distinct_witness :
  reachable (exec empty_store demo_session)
  /\ NoDup (map Task.id
              (listed (list_tasks "all" "all"
                         (exec empty_store demo_session)))).
Proof.
  assert (Hr : reachable (exec empty_store demo_session))
    by (exists demo_session; reflexivity).
  split; [exact Hr|]. exact (proj1 (listed_ids_distinct "all" "all" _ Hr)).
Defined.

(** * Updates *)

Lemma store_eta s : mkStore (tasks s) (task_counter s) = s.
Proof. now destruct s. Qed.

(** X8: the outcomes of [update_task_status].  The call succeeds exactly
    when the id is stored and the status is pending, in_progress or
    completed; an id that is not stored is answered by NotFound whatever
    the status, valid ones included; a failed call returns the store as it
    was; and no call, failed or not, adds, removes or reorders ids or moves
    the counter. *)
Theorem update_task_status_outcome now task_id st s :
  (success (snd (update_task_status now task_id st s)) = true
   <-> (exists t, Dict.get (tasks s) task_id = Some t)
       /\ (st = "pending" \/ st = "in_progress" \/ st = "completed"))
  /\ (Dict.get (tasks s) task_id = None ->
      snd (update_task_status now task_id st s)
      = Failure ("Task " ++ task_id ++ " not found"))
  /\ (success (snd (update_task_status now task_id st s)) = false ->
      fst (update_task_status now task_id st s) = s)
  /\ Dict.keys (tasks (fst (update_task_status now task_id st s)))
     = Dict.keys (tasks s)
  /\ task_counter (fst (update_task_status now task_id st s))
     = task_counter s.
Proof.
  split; [rewrite update_task_status_success, valid_statuses_spec; tauto|].
  split.
  { intros Hget. unfold update_task_status. now rewrite Hget. }
  destruct (Dict.get (tasks s) task_id) as [t|] eqn:Hget.
  2: { destruct (update_task_status_failed now task_id st s (or_introl Hget))
         as [e ->]. auto. }
  destruct (str_in st valid_statuses) eqn:Hv.
  2: { destruct (update_task_status_failed now task_id st s (or_intror Hv))
         as [e ->]. auto. }
  destruct (update_task_status_ok now task_id st s t Hget Hv)
    as (d' & -> & _ & _ & Hkeys).
  cbn [fst snd success tasks task_counter]. split; [discriminate|auto].
Qed.

(** X9: setting a task to the status it already has is harmless when that
    status is pending or in_progress: the call succeeds and the store that
    comes back is the store that went in. *)
Theorem update_task_status_same_status now task_id st s t :
  Dict.get (tasks s) task_id = Some t ->
  Task.status t = st ->
  st = "pending" \/ st = "in_progress" ->
  update_task_status now task_id st s
  = (s, Success ("Task " ++ task_id ++ " status updated to " ++ st) t).
Proof.
  intros Hget Hst Hv. unfold update_task_status.
  assert (Hin : str_in st valid_statuses = true)
    by (apply valid_statuses_spec; tauto).
  assert (Hc : (st =? "completed") = false)
    by (apply String.eqb_neq; destruct Hv; subst st; congruence).
  rewrite Hget, Hin, Hc. cbn [negb].
  assert (Hfix : Dict.mutate (tasks s) task_id (Task.set_status st) = tasks s).
  { apply mutate_fixed. intros v Hv'. rewrite Hget in Hv'.
    injection Hv' as <-. rewrite <- Hst. now destruct t. }
  now rewrite Hfix, Hget, store_eta.
Qed.

Lemma update_task_status_same_status_witness :
  Dict.get (tasks demo_done) "task_2"
  = Some (Task.mk "task_2" "Ship release" "tag and publish" "urgent"
                  "pending" t1 None)
  /\ fst (update_task_status t3 "task_2" "pending" demo_done) = demo_done.
Proof.
  split; [reflexivity|].
  rewrite (update_task_status_same_status t3 "task_2" "pending" demo_done _
             eq_refl eq_refl (or_introl eq_refl)).
  reflexivity.
Defined.

(** X10: completing a task again overwrites its completion time: after two
    completions in a row, whatever the task looked like before, the stored
    record has status completed and the instant of the second call as
    [completed_at]; the time of the first completion is gone. *)
Theorem update_task_status_recompletion now1 now2 task_id s t :
  Dict.get (tasks s) task_id = Some t ->
  let s1 := fst (update_task_status now1 task_id "completed" s) in
  let s2 := fst (update_task_status now2 task_id "completed" s1) in
  Dict.get (tasks s1) task_id
  = Some (Task.mk (Task.id t) (Task.title t) (Task.description t)
                  (Task.priority t) "completed" (Task.created_at t)
                  (Some now1))
  /\ Dict.get (tasks s2) task_id
     = Some (Task.mk (Task.id t) (Task.title t) (Task.description t)
                     (Task.priority t) "completed" (Task.created_at t)
                     (Some now2)).
Proof.
  intros Hget s1 s2. subst s1 s2.
  destruct (update_task_status_ok now1 task_id "completed" s t Hget eq_refl)
    as (d1 & E1 & Hget1 & _).
  rewrite E1. cbn [fst tasks]. cbn [String.eqb Ascii.eqb Bool.eqb] in Hget1.
  split; [exact Hget1|].
  destruct (update_task_status_ok now2 task_id "completed"
              (mkStore d1 (task_counter s)) _ Hget1 eq_refl)
    as (d2 & E2 & Hget2 & _).
  rewrite E2. cbn [fst tasks]. exact Hget2.
Qed.

Lemma update_task_status_recompletion_witness :
  Dict.get (tasks demo_done) "task_1"
  = Some (Task.mk "task_1" "Write spec" "draft v1" "medium" "completed" t0
                  (Some t2))
  /\ Dict.get
       (tasks (fst (update_task_status t3 "task_1" "completed"
                      (fst (update_task_status t2 "task_1" "completed"
                              demo_done)))))
       "task_1"
     = Some (Task.mk "task_1" "Write spec" "draft v1" "medium" "completed" t0
                     (Some t3)).
Proof.
  split; [reflexivity|].
  exact (proj2 (update_task_status_recompletion t2 t3 "task_1" demo_done _
                  eq_refl)).
Defined.

(** * Creation and deletion *)

(** X11: deleting a task once is final.  In a dict (no key twice), after a
    [delete_task] that removed the task, a second [delete_task], an
    [update_task_status] with any status and [task_summary_prompt] on the
    same id all answer that the task is not found. *)
Theorem delete_task_twice now st task_id s t :
  Dict.wf (tasks s) ->
  Dict.get (tasks s) task_id = Some t ->
  let s' := fst (delete_task task_id s) in
  delete_task task_id s' = (s', Failure ("Task " ++ task_id ++ " not found"))
  /\ update_task_status now task_id st s'
     = (s', Failure ("Task " ++ task_id ++ " not found"))
  /\ task_summary_prompt task_id s' = "Task " ++ task_id ++ " not found".
Proof.
  intros Hwf Hget s'.
  assert (Hgone : Dict.get (tasks s') task_id = None).
  { subst s'. unfold delete_task. rewrite Hget. cbn [fst tasks].
    now apply get_remove_same. }
  unfold delete_task, update_task_status, task_summary_prompt.
  now rewrite Hgone.
Qed.

Lemma delete_task_twice_witness :
  Dict.wf (tasks demo_done)
  /\ delete_task "task_2" (fst (delete_task "task_2" demo_done))
     = (fst (delete_task "task_2" demo_done),
        Failure "Task task_2 not found").
Proof.
  assert (Hwf : Dict.wf (tasks demo_done)).
  { unfold Dict.wf. cbn. repeat constructor; cbn; intuition discriminate. }
  split; [exact Hwf|].
  exact (proj1 (delete_task_twice t3 "pending" "task_2" demo_done _ Hwf
                  eq_refl)).
Defined.

(** X12: creating a task and deleting it at once gives back the mapping as
    it was, on a running server, but not the counter: it stays one higher,
    so the next task gets the id after the deleted one. *)
Theorem create_then_delete now ti de pr s :
  reachable s ->
  let s1 := fst (create_task now ti de pr s) in
  let s2 := fst (delete_task (task_id_of (task_counter s + 1)) s1) in
  tasks s2 = tasks s
  /\ task_counter s2 = task_counter s + 1
  /\ forall now' ti' de' pr',
       snd (create_task now' ti' de' pr' s2)
       = Success "Task created successfully"
           (Task.mk (task_id_of (task_counter s + 2)) ti' de' pr' "pending"
                    now' None).
Proof.
  intros Hr s1 s2. apply reachable_store_ok in Hr.
  assert (Hfresh : Dict.get (tasks s) (task_id_of (task_counter s + 1))
                   = None).
  { apply (in_creation_order_fresh 0 (task_counter s)); [exact Hr|lia]. }
  assert (E2 : s2 = mkStore (tasks s) (task_counter s + 1)).
  { subst s2 s1. unfold create_task, delete_task. cbn [fst tasks task_counter].
    fold (task_id_of (task_counter s + 1)).
    rewrite get_set_same. cbn [fst].
    now rewrite (set_fresh _ _ _ Hfresh), (remove_last_fresh _ _ _ Hfresh). }
  rewrite E2. cbn [tasks task_counter]. split; [reflexivity|].
  split; [reflexivity|].
  intros now' ti' de' pr'. unfold create_task. cbn [snd task_counter].
  unfold task_id_of. now rewrite <- Nat.add_assoc.
Qed.

Lemma create_then_delete_witness :
  reachable demo_done
  /\ tasks (fst (delete_task "task_3"
                   (fst (create_task t3 "Review" "second pass" "high"
                           demo_done))))
     = tasks demo_done.
Proof.
  assert (Hr : reachable demo_done).
  { exists (demo_setup ++ [UpdateTaskStatus t2 "task_1" "completed"])%list.
    reflexivity. }
  split; [exact Hr|].
  exact (proj1 (create_then_delete t3 "Review" "second pass" "high"
                  demo_done Hr)).
Defined.

(** * The life of a task over a session *)

Lemma same_origin_refl t : same_origin t t.
Proof. repeat split. Qed.

Lemma same_origin_trans t1 t2 t3 :
  same_origin t1 t2 -> same_origin t2 t3 -> same_origin t1 t3.
Proof.
  unfold same_origin. intros (?&?&?&?&?) (?&?&?&?&?).
  repeat split; congruence.
Qed.

Lemma fresh_id s :
  store_ok s ->
  Dict.get (tasks s) ("task_" ++ str_of_int (task_counter s + 1)) = None.
Proof.
  intros Hs.
  apply (in_creation_order_fresh 0 (task_counter s) (tasks s)
           (task_counter s + 1) Hs). lia.
Qed.

(** One call on a store of a running server: an entry that is still there
    afterwards has kept its origin, and its completion time if it needs
    one. *)
Lemma get_step s c k t t' :
  store_ok s -> Dict.get (tasks s) k = Some t ->
  Dict.get (tasks (fst (step s c))) k = Some t' ->
  same_origin t t' /\ (stamped t -> stamped t').
Proof.
  intros Hs Hget. rewrite fst_step.
  assert (Hsame : Dict.get (tasks s) k = Some t' ->
                  same_origin t t' /\ (stamped t -> stamped t')).
  { rewrite Hget. intros [= <-]. split; [apply same_origin_refl|auto]. }
  destruct c as [now ti de pr|fs fp|now task_id st|task_id| | | |task_id];
    auto.
  - unfold create_task. cbn [fst tasks].
    assert (Hne : k <> "task_" ++ str_of_int (task_counter s + 1)).
    { intros ->. rewrite (fresh_id s Hs) in Hget. discriminate. }
    now rewrite get_set_other by exact Hne.
  - destruct (Dict.get (tasks s) task_id) as [t0|] eqn:Hid.
    2: { destruct (update_task_status_failed now task_id st s
                     (or_introl Hid)) as [e ->]. exact Hsame. }
    destruct (str_in st valid_statuses) eqn:Hv.
    2: { destruct (update_task_status_failed now task_id st s
                     (or_intror Hv)) as [e ->]. exact Hsame. }
    destruct (update_task_status_ok now task_id st s t0 Hid Hv)
      as (d' & -> & Hget' & Hoth & _). cbn [fst tasks].
    destruct (String.eqb_spec k task_id) as [->|Hne].
    + rewrite Hget'. rewrite Hget in Hid. injection Hid as <-.
      intros [= <-]. split; [repeat split|].
      unfold stamped. cbn [Task.status Task.completed_at].
      intros _ ->. cbn. discriminate.
    + now rewrite Hoth by exact Hne.
  - unfold delete_task.
    destruct (Dict.get (tasks s) task_id) as [t0|] eqn:Hid;
      cbn [fst snd success tasks]; [|exact Hsame].
    destruct (String.eqb_spec k task_id) as [->|Hne].
    + rewrite get_remove_same by now apply store_ok_wf. discriminate.
    + now rewrite get_remove_other by exact Hne.
Qed.

Lemma gone_stays_gone s cs k t :
  store_ok s -> Dict.get (tasks s) k = Some t ->
  forall c, Dict.get (tasks (fst (step s c))) k = None ->
            Dict.get (tasks (exec (fst (step s c)) cs)) k = None.
Proof.
  intros Hs Hget c Hnone.
  destruct (store_ok_get _ _ _ Hs Hget) as (_ & n & Hn & E).
  apply (retired_exec (fst (step s c)) cs k). split; [exact Hnone|].
  exists n. rewrite task_counter_step. split; [lia|exact E].
Qed.

(** X13: what a task is created with stays with it.  On a running server,
    a task found under an id before a session and under the same id after
    it is the same task still: id, title, description, priority and
    [created_at] are what they were, whatever calls the session made. *)
Theorem origin_is_immutable cs s k t t' :
  reachable s ->
  Dict.get (tasks s) k = Some t ->
  Dict.get (tasks (exec s cs)) k = Some t' ->
  Task.id t' = Task.id t
  /\ Task.title t' = Task.title t
  /\ Task.description t' = Task.description t
  /\ Task.priority t' = Task.priority t
  /\ Task.created_at t' = Task.created_at t.
Proof.
  intros Hr. apply reachable_store_ok in Hr.
  change (Dict.get (tasks s) k = Some t ->
          Dict.get (tasks (exec s cs)) k = Some t' -> same_origin t t').
  revert s t Hr. induction cs as [|c cs IH]; intros s t Hs Hget; cbn [exec].
  - rewrite Hget. intros [= <-]. apply same_origin_refl.
  - destruct (Dict.get (tasks (fst (step s c))) k) as [t1|] eqn:H1.
    + intros Hend. apply (same_origin_trans t t1 t').
      * exact (proj1 (get_step s c k t t1 Hs Hget H1)).
      * apply (IH (fst (step s c)) t1); auto. now apply store_ok_step.
    + rewrite (gone_stays_gone s cs k t Hs Hget c H1). discriminate.
Qed.

Lemma origin_is_immutable_witness :
  reachable demo_store
  /\ Task.created_at
       (Task.mk "task_1" "Write spec" "draft v1" "medium" "pending" t0
                (Some t2))
     = Task.created_at
         (Task.mk "task_1" "Write spec" "draft v1" "medium" "pending" t0 None).
Proof.
  assert (Hr : reachable demo_store) by (exists demo_setup; reflexivity).
  split; [exact Hr|].
  destruct (origin_is_immutable
              [ UpdateTaskStatus t2 "task_1" "completed";
                DeleteTask "task_2";
                CreateTask t3 "Review" "second pass" "high";
                UpdateTaskStatus t3 "task_1" "pending" ]
              demo_store "task_1" _ _ Hr eq_refl eq_refl)
    as (_ & _ & _ & _ & H).
  exact H.
Defined.

Lemma stamped_exec cs s :
  store_ok s ->
  (forall k t, Dict.get (tasks s) k = Some t -> stamped t) ->
  forall k t, Dict.get (tasks (exec s cs)) k = Some t -> stamped t.
Proof.
  revert s. induction cs as [|c cs IH]; intros s Hs Hall; cbn [exec]; auto.
  apply IH; [now apply store_ok_step|].
  intros k t1 H1.
  destruct (Dict.get (tasks s) k) as [t|] eqn:Hget.
  - exact (proj2 (get_step s c k t t1 Hs Hget H1) (Hall k t Hget)).
  - (* the entry is new: only [create_task] makes one, and it is pending *)
    rewrite fst_step in H1.
    destruct c as [now ti de pr|fs fp|now task_id st|task_id| | | |task_id];
      try congruence.
    + unfold create_task in H1. cbn [fst tasks] in H1.
      destruct (String.eqb_spec k ("task_" ++ str_of_int (task_counter s + 1)))
        as [->|Hne].
      * rewrite get_set_same in H1. injection H1 as <-.
        unfold stamped; cbn. discriminate.
      * rewrite get_set_other in H1 by exact Hne. congruence.
    + rewrite (proj2 (update_task_status_store now task_id st s) k Hget) in H1.
      discriminate.
    + unfold delete_task in H1.
      destruct (Dict.get (tasks s) task_id) as [t0|] eqn:Hid;
        cbn [fst tasks] in H1; [|congruence].
      destruct (String.eqb_spec k task_id) as [->|Hne]; [congruence|].
      rewrite get_remove_other in H1 by exact Hne. congruence.
Qed.

(** X14: on a running server a task whose status is completed always has a
    completion time.  (The converse does not hold: a reopened task keeps
    its old completion time.) *)
Theorem completed_tasks_are_stamped s t :
  reachable s ->
  In t (Dict.values (tasks s)) ->
  Task.status t = "completed" ->
  exists c, Task.completed_at t = Some c.
Proof.
  intros [cs ->] Hin Hst.
  pose proof (store_ok_exec empty_store cs store_ok_empty) as Hs.
  apply values_In in Hin as [k Hin].
  apply In_get in Hin; [|now apply store_ok_wf].
  assert (H : stamped t).
  { apply (stamped_exec cs empty_store store_ok_empty) with (k := k); auto.
    discriminate. }
  destruct (Task.completed_at t) as [c|] eqn:E; [eauto|].
  exfalso. apply (H Hst). exact E.
Qed.

Lemma completed_tasks_are_stamped_witness :
  reachable demo_done
  /\ exists c,
      Task.completed_at
        (Task.mk "task_1" "Write spec" "draft v1" "medium" "completed" t0
                 (Some t2))
      = Some c.
Proof.
  assert (Hr : reachable demo_done).
  { exists (demo_setup ++ [UpdateTaskStatus t2 "task_1" "completed"])%list.
    reflexivity. }
  split; [exact Hr|].
  apply (completed_tasks_are_stamped demo_done _ Hr);
    [left; reflexivity | reflexivity].
Defined.

Example reopened_task_keeps_stamp :
  Dict.get (tasks (exec empty_store demo_session)) "task_1"
  = Some (Task.mk "task_1" "Write spec" "draft v1" "medium" "pending" t0
                  (Some t2)).
Proof. reflexivity. Qed.

Lemma len_keys {V} (d : Dict.t V) : Dict.len d = length (Dict.keys d).
Proof. unfold Dict.len, Dict.keys. now rewrite length_map. Qed.

Lemma len_step s c :
  store_ok s ->
  Dict.len (tasks (fst (step s c))) + (if deletes s c then 1 else 0)
  = Dict.len (tasks s) + (if is_create c then 1 else 0).
Proof.
  intros Hs. rewrite fst_step.
  destruct c as [now ti de pr|fs fp|now task_id st|task_id| | | |task_id];
    cbn [deletes is_create]; try lia.
  - unfold create_task. cbn [fst tasks].
    rewrite (set_fresh _ _ _ (fresh_id s Hs)). unfold Dict.len.
    rewrite length_app. cbn. lia.
  - destruct (Dict.get (tasks s) task_id) as [t0|] eqn:Hid.
    2: { destruct (update_task_status_failed now task_id st s
                     (or_introl Hid)) as [e ->]. cbn [fst]. lia. }
    destruct (str_in st valid_statuses) eqn:Hv.
    2: { destruct (update_task_status_failed now task_id st s
                     (or_intror Hv)) as [e ->]. cbn [fst]. lia. }
    destruct (update_task_status_ok now task_id st s t0 Hid Hv)
      as (d' & -> & _ & _ & Hkeys). cbn [fst tasks].
    rewrite !len_keys, Hkeys. lia.
  - unfold delete_task.
    destruct (Dict.get (tasks s) task_id) as [t0|] eqn:Hid;
      cbn [fst snd success tasks]; [|lia].
    rewrite <- (len_remove _ _ _ Hid). lia.
Qed.

Lemma len_exec cs s :
  store_ok s ->
  Dict.len (tasks (exec s cs)) + deletions s cs
  = Dict.len (tasks s) + creations cs.
Proof.
  revert s. induction cs as [|c cs IH]; intros s Hs.
  - cbn. lia.
  - cbn [exec deletions]. pose proof (len_step s c Hs) as H1.
    pose proof (IH _ (store_ok_step s c Hs)) as H2.
    unfold creations in *. cbn [filter].
    destruct (is_create c); cbn [length]; lia.
Qed.

(** X15: the books balance.  After any session of a fresh server the
    number of stored tasks plus the number of [delete_task] calls that
    removed a task is the number of [create_task] calls; the counter is the
    number of creations, so the store never holds more tasks than the
    counter says were created. *)
Theorem store_size_accounting cs :
  Dict.len (tasks (exec empty_store cs)) + deletions empty_store cs
  = creations cs
  /\ task_counter (exec empty_store cs) = creations cs
  /\ Dict.len (tasks (exec empty_store cs))
     <= task_counter (exec empty_store cs).
Proof.
  pose proof (len_exec cs empty_store store_ok_empty) as H.
  destruct (created_ids_transcript cs empty_store) as [_ E].
  cbn in H, E. rewrite E. repeat split; lia.
Qed.

Example store_size_demo :
  Dict.len (tasks (exec empty_store demo_session)) = 2
  /\ deletions empty_store demo_session = 1
  /\ creations demo_session = 3.
Proof. repeat split. Qed.

(** X16: every task in the store of a running server was handed out by a
    [create_task] of the session: its id is among the ids the creations
    returned. *)
Theorem stored_ids_were_created cs k :
  In k (Dict.keys (tasks (exec empty_store cs))) ->
  In k (created_ids (transcript empty_store cs)).
Proof.
  intros Hin. apply In_keys_get in Hin as [t Hget].
  pose proof (store_ok_exec empty_store cs store_ok_empty) as Hs.
  destruct (store_ok_get _ _ _ Hs Hget) as (_ & n & Hn & ->).
  destruct (created_ids_transcript cs empty_store) as [-> E].
  cbn [task_counter empty_store Nat.add] in *.
  apply in_map, in_seq. lia.
Qed.

Lemma stored_ids_were_created_witness :
  In "task_3" (Dict.keys (tasks (exec empty_store demo_session)))
  /\ In "task_3" (created_ids (transcript empty_store demo_session)).
Proof.
  assert (H : In "task_3" (Dict.keys (tasks (exec empty_store demo_session))))
    by (right; left; reflexivity).
  split; [exact H|]. exact (stored_ids_were_created demo_session _ H).
Defined.

(** * The prompt *)

Lemma last_char_some x r : exists c, last_char (String x r) = Some c.
Proof.
  revert x. induction r as [|y r IH]; intros x.
  - now exists x.
  - destruct (IH y) as [c Hc]. exists c. exact Hc.
Qed.

Lemma last_char_cons x r :
  last_char (String x r)
  = match last_char r with Some c => Some c | None => Some x end.
Proof.
  destruct r as [|y r]; [reflexivity|].
  destruct (last_char_some y r) as [c Hc].
  change (last_char (String x (String y r))) with (last_char (String y r)).
  now rewrite Hc.
Qed.

Lemma last_char_app a b :
  last_char (a ++ b)
  = match last_char b with Some c => Some c | None => last_char a end.
Proof.
  induction a as [|x a IH].
  - cbn [append]. now destruct (last_char b).
  - cbn [append]. rewrite !last_char_cons, IH.
    now destruct (last_char b), (last_char a).
Qed.

(** X17: the text of [task_summary_prompt] tells whether the task exists:
    it is the not-found sentence exactly when the id is not stored.  The
    summary of a stored task ends in a full stop and the not-found sentence
    of any id ends in "d", so no stored title, description or priority can
    make the one look like the other. *)
Theorem task_summary_prompt_tells task_id s :
  (task_summary_prompt task_id s = "Task " ++ task_id ++ " not found"
   <-> Dict.get (tasks s) task_id = None)
  /\ (forall t other, Dict.get (tasks s) task_id = Some t ->
        task_summary_prompt task_id s <> "Task " ++ other ++ " not found").
Proof.
  assert (Hnf : forall other,
             last_char ("Task " ++ other ++ " not found") = Some "d"%char).
  { intros other. now rewrite !last_char_app. }
  assert (Hsum : forall t, Dict.get (tasks s) task_id = Some t ->
             last_char (task_summary_prompt task_id s) = Some "."%char).
  { intros t Hget. unfold task_summary_prompt. rewrite Hget.
    now rewrite !last_char_app. }
  assert (Hdiff : forall t other, Dict.get (tasks s) task_id = Some t ->
             task_summary_prompt task_id s
             <> "Task " ++ other ++ " not found").
  { intros t other Hget E. apply (f_equal last_char) in E.
    rewrite (Hsum t Hget), Hnf in E. discriminate. }
  split; [|exact Hdiff].
  destruct (Dict.get (tasks s) task_id) as [t|] eqn:Hget.
  - split; [|discriminate]. intros E. exfalso.
    exact (Hdiff t task_id eq_refl E).
  - split; [reflexivity|]. intros _. unfold task_summary_prompt.
    now rewrite Hget.
Qed.
